(** * @lykmapipo/env: the value-coercion and derivation layer

    A shallow embedding of [src/index.js]: the Store accessors
    ([get], [set], [clear]), the memoised initialiser ([load]), the
    scalar and composite coercers and the derived value builders
    ([apiVersion], [getLocale], [getCountryCode]), followed by the
    properties the specification states about them.

    Modelling conventions.
    - A JavaScript string is a Rocq [string]; its characters stand for
      code units below 256.
    - [process.env] is an object whose own properties are a finite map
      from names to strings and whose prototype is [Object.prototype].
      lodash's [get] and [set] (4.17.21) are modelled with their
      property paths: the test [isKey], the parser [stringToPath] (a
      path with a bracket is parsed by the host), the walk of [baseGet]
      and the first assignment of [baseSet]. Reading a property of a
      value other than the environment is a field of [Host]; what
      [baseSet] assigns further down a path lands on the string the
      environment made of the first assignment and is lost. Text holds
      no null character.
    - A JavaScript number is an IEEE 754 double ([PrimFloat.float]).
    - A function that can raise returns a [result]; every exported
      function runs in the monad [M] that threads the process state
      (the environment, the state of lodash's [once] and the log of
      file reads).
    - A value is [undefined], [null], a boolean, a number, a string, an
      array, a plain object or a built-in function; symbols are left
      out.
    - The libraries the module imports (lodash, semver, dotenv,
      os-locale, @lykmapipo/common) are modelled by what they compute;
      what depends on the machine (file system, OS locale, number
      syntax and printing) and [autoParse] are fields of [Host]. *)

From Stdlib Require Import ZArith NArith Lia List Bool Ascii String DecimalString.
From Stdlib Require Import Floats.PrimFloat.
From Stdlib Require Uint63.
From stdpp Require Import base option list sorting gmap strings.

Local Set Warnings "-clear-no-such-hyp".

Local Open Scope string_scope.
Local Open Scope Z_scope.

(** ** Strings *)

Module Str.

(** [\s] on code units below 256: tab, line feed, vertical tab, form
    feed, carriage return, space and no-break space. *)
Definition isWhitespace (c : ascii) : bool :=
  match c with
  | "009" | "010" | "011" | "012" | "013" | " " | "160" => true
  | _ => false
  end%char.

Definition isDigit (c : ascii) : bool :=
  match c with
  | "0" | "1" | "2" | "3" | "4" | "5" | "6" | "7" | "8" | "9" => true
  | _ => false
  end%char.

Definition isEmpty (s : string) : bool :=
  match s with "" => true | String _ _ => false end.

(** [s.replace(/^\s+/, '')] *)
Fixpoint trimStart (s : string) : string :=
  match s with
  | "" => ""
  | String c r => if isWhitespace c then trimStart r else s
  end.

(** [s.replace(/\s+$/, '')] *)
Fixpoint trimEnd (s : string) : string :=
  match s with
  | "" => ""
  | String c r =>
      let r' := trimEnd r in
      if isWhitespace c && isEmpty r' then "" else String c r'
  end.

(** [s.replace(/^\s+|\s+$/g, '')] *)
Definition trimWhitespace (s : string) : string := trimEnd (trimStart s).

(** [String.prototype.split] with a one-character separator. *)
Fixpoint split (sep : ascii) (s : string) : list string :=
  match s with
  | "" => [""]
  | String c r =>
      if Ascii.eqb c sep then "" :: split sep r
      else match split sep r with
           | h :: t => String c h :: t
           | [] => [String c ""]
           end
  end.

(** [Array.prototype.join] on strings. *)
Fixpoint join (sep : string) (l : list string) : string :=
  match l with
  | [] => ""
  | [s] => s
  | s :: r => s +:+ sep +:+ join sep r
  end.

(** [String.prototype.toLowerCase] on code units below 256: the
    letters A-Z and the Latin-1 capitals (192-222 except 215). *)
Definition lowerChar (c : ascii) : ascii :=
  let n := N_of_ascii c in
  if ((65 <=? n) && (n <=? 90) ||
      (192 <=? n) && (n <=? 222) && negb (n =? 215))%N
  then ascii_of_N (n + 32) else c.

Fixpoint toLowerCase (s : string) : string :=
  match s with
  | "" => ""
  | String c r => String (lowerChar c) (toLowerCase r)
  end.

(** The value of a run of decimal digits. *)
Definition digitValue (c : ascii) : N := (N_of_ascii c - 48)%N.

Fixpoint digitsValue (acc : N) (s : string) : N :=
  match s with
  | "" => acc
  | String c r => digitsValue (10 * acc + digitValue c)%N r
  end.

(** The decimal text of a natural number, as [String] prints a safe
    integer. *)
Definition ofN (n : N) : string := NilZero.string_of_uint (N.to_uint n).

End Str.

(** ** Values and errors *)

#[warnings="-register-all"]
Inductive value : Type :=
| VUndefined
| VNull
| VBool (b : bool)
| VNum (n : float)
| VStr (s : string)
| VArr (l : list value)
| VObj (fields : list (string * value))
| VFun (name : string).

Inductive error : Type :=
| TypeError (msg : string).

Inductive result (A : Type) : Type :=
| Ok (a : A)
| Throw (e : error).
Arguments Ok {A} a.
Arguments Throw {A} e.

(** ToBoolean *)
Definition truthy (v : value) : bool :=
  match v with
  | VUndefined | VNull => false
  | VBool b => b
  | VNum n => negb (is_zero n || is_nan n)
  | VStr s => negb (Str.isEmpty s)
  | VArr _ | VObj _ | VFun _ => true
  end.

(** [v === s] at a string literal [s] *)
Definition isString (v : value) (s : string) : bool :=
  match v with
  | VStr s' => String.eqb s' s
  | _ => false
  end.

(** [a || b] *)
Definition or_else (a b : value) : value := if truthy a then a else b.

(** A parameter declared [(x = d)]: the default replaces [undefined]. *)
Definition default_param (x d : value) : value :=
  match x with VUndefined => d | _ => x end.


(** ** The host: what the module reads from the machine *)

(** What [dotenv.config] returns: [{ parsed }] or [{ error }]. *)
Inductive DotenvConfigOutput : Type :=
| DotenvParsed (parsed : gmap string string)
| DotenvError.

Record Host : Type := {
  (** [process.cwd()] *)
  cwd : string;
  (** [path.resolve(base, name)] *)
  resolve : string -> string -> string;
  (** [fs.readFileSync(path)]; [None] when it raises *)
  readFileSync : string -> option string;
  (** [dotenv.parse(src)] *)
  parse : string -> gmap string string;
  (** [osLocale.sync({ spawn })] *)
  osLocale : bool -> string;
  (** the number a string reads as: lodash's [toNumber] at a string
      (trimming, binary, octal and hexadecimal literals, unary plus) *)
  StringToNumber : string -> float;
  (** [String(n)] at a number *)
  NumberToString : float -> string;
  (** @lykmapipo/common's [autoParse] *)
  autoParse : value -> value;
  (** [v[key]] at a value [v] that is not the environment: the length
      and the characters of a string, the methods of a prototype *)
  readProperty : value -> string -> value;
  (** lodash's [stringToPath] at a string that holds a bracket *)
  bracketPath : string -> list string;
}.

(** ** Process state and the monad of the exported functions *)

Record State : Type := mkState {
  (** [process.env] *)
  env : gmap string string;
  (** the counter [n] in the closure of lodash's [before(2, func)] *)
  once_n : Z;
  (** the variable [result] of the same closure; [None] is [undefined] *)
  once_result : option DotenvConfigOutput;
  (** the paths handed to [fs.readFileSync], oldest first *)
  reads : list string;
}.

(** The state of a process that has imported the module and called
    nothing yet. *)
Definition initial (env0 : gmap string string) : State :=
  mkState env0 2 None [].

Definition M (A : Type) : Type := State -> result A * State.

Definition ret {A} (a : A) : M A := fun st => (Ok a, st).

Definition bind {A B} (m : M A) (k : A -> M B) : M B :=
  fun st =>
    match m st with
    | (Ok a, st') => k a st'
    | (Throw e, st') => (Throw e, st')
    end.

Definition throw {A} (e : error) : M A := fun st => (Throw e, st).

Definition lift {A} (r : result A) : M A := fun st => (r, st).

Definition processEnv : M (gmap string string) := fun st => (Ok (env st), st).

Definition setProcessEnv (e : gmap string string) : M unit :=
  fun st => (Ok tt, mkState e (once_n st) (once_result st) (reads st)).

Notation "'let*' x ':=' m 'in' k" := (bind m (fun x => k))
  (at level 10, x name, m at level 100, k at level 200).

(** What a call returned, and the state it left. *)
Definition returned {A} (m : M A) (st : State) : result A := fst (m st).
Definition after {A} (m : M A) (st : State) : State := snd (m st).

(** ** semver: [coerce] (left-to-right) and [parse] *)

Record SemVer : Type := mkSemVer { major : N; minor : N; patch : N }.

Module Semver.

Definition MAX_SAFE_INTEGER : N := 9007199254740991.
Definition MAX_SAFE_COMPONENT_LENGTH : nat := 16.

(** The longest run of digits a string starts with, and the rest. *)
Fixpoint spanDigits (s : string) : string * string :=
  match s with
  | "" => ("", "")
  | String c r =>
      if Str.isDigit c
      then let '(d, rest) := spanDigits r in (String c d, rest)
      else ("", s)
  end.

(** [(?:\.(\d{1,16}))?] at the head of [s], when what follows the
    digits is not a digit: the group and the rest. *)
Definition dotComponent (s : string) : option (string * string) :=
  match s with
  | String "." r =>
      let '(d, rest) := spanDigits r in
      if negb (Str.isEmpty d) && (String.length d <=? MAX_SAFE_COMPONENT_LENGTH)%nat
      then Some (d, rest) else None
  | _ => None
  end.

(** The first match of
    [(^|[^\d])(\d{1,16})(?:\.(\d{1,16}))?(?:\.(\d{1,16}))?(?:$|[^\d])]:
    groups 2, 3 and 4. [prevDigit] tells whether the code unit before
    [s] is a digit. *)
Fixpoint coerceMatch (prevDigit : bool) (s : string)
  : option (string * option string * option string) :=
  match s with
  | "" => None
  | String c r =>
      if Str.isDigit c && negb prevDigit then
        let '(d, rest) := spanDigits s in
        if (String.length d <=? MAX_SAFE_COMPONENT_LENGTH)%nat then
          match dotComponent rest with
          | Some (mi, rest') =>
              match dotComponent rest' with
              | Some (pa, _) => Some (d, Some mi, Some pa)
              | None => Some (d, Some mi, None)
              end
          | None => Some (d, None, None)
          end
        else coerceMatch true r
      else coerceMatch (Str.isDigit c) r
  end.

(** A numeric identifier of a strict version: [0|[1-9]\d*]. *)
Definition numericIdentifier (d : string) : bool :=
  match d with
  | "" => false
  | String "0" "" => true
  | String "0" _ => false
  | _ => true
  end.

(** [parse] at the text [ma.mi.pa] of three runs of digits: the
    strict pattern, then the constructor, which refuses a component
    above [MAX_SAFE_INTEGER]. *)
Definition parse (ma mi pa : string) : option SemVer :=
  if numericIdentifier ma && numericIdentifier mi && numericIdentifier pa then
    let v := mkSemVer (Str.digitsValue 0 ma) (Str.digitsValue 0 mi) (Str.digitsValue 0 pa) in
    if ((major v <=? MAX_SAFE_INTEGER) && (minor v <=? MAX_SAFE_INTEGER)
        && (patch v <=? MAX_SAFE_INTEGER))%N
    then Some v else None
  else None.

(** [coerce] at a string; [None] is [null]. *)
Definition coerceString (version : string) : option SemVer :=
  match coerceMatch false version with
  | None => None
  | Some (ma, mi, pa) => parse ma (default "0" mi) (default "0" pa)
  end.

End Semver.

(** ** [Object.prototype] and lodash's property paths *)

(** The text of a built-in function, as [String] gives it. *)
Definition functionText (name : string) : string :=
  "function " +:+ name +:+ "() { [native code] }".

(** The methods of [Object.prototype] other than [constructor]. *)
Definition objectPrototypeMethods : list string :=
  ["__defineGetter__"; "__defineSetter__"; "hasOwnProperty"; "__lookupGetter__";
   "__lookupSetter__"; "isPrototypeOf"; "propertyIsEnumerable"; "toString";
   "valueOf"; "toLocaleString"].

(** [key in Object.prototype] *)
Definition inObjectPrototype (key : string) : bool :=
  String.eqb key "constructor" || String.eqb key "__proto__"
  || bool_decide (key ∈ objectPrototypeMethods).

(** What the environment inherits at [key]: the function [Object] at
    [constructor], the prototype itself at [__proto__], a method, or
    nothing. *)
Definition objectPrototype (key : string) : value :=
  if String.eqb key "constructor" then VFun "Object"
  else if String.eqb key "__proto__" then VObj []
  else if bool_decide (key ∈ objectPrototypeMethods) then VFun key
  else VUndefined.

(** [process.env[key]] *)
Definition envRead (object : gmap string string) (key : string) : value :=
  match object !! key with
  | Some v => VStr v
  | None => objectPrototype key
  end.

(** [key in process.env] *)
Definition envHas (object : gmap string string) (key : string) : bool :=
  bool_decide (is_Some (object !! key)) || inObjectPrototype key.

(** [\w]: a letter, a digit or the underscore. *)
Definition isWordChar (c : ascii) : bool :=
  let n := N_of_ascii c in
  ((48 <=? n) && (n <=? 57) || (65 <=? n) && (n <=? 90)
   || (97 <=? n) && (n <=? 122) || (n =? 95))%N.

Fixpoint allChars (f : ascii -> bool) (s : string) : bool :=
  match s with
  | "" => true
  | String c r => f c && allChars f r
  end.

(** [reIsPlainProp = /^\w*$/] *)
Definition reIsPlainProp (s : string) : bool := allChars isWordChar s.

(** After an opening bracket: [[^[\]]*\]], characters that are no
    bracket and then the closing bracket. *)
Fixpoint closesPlainly (s : string) : bool :=
  match s with
  | "" => false
  | String c r =>
      if Ascii.eqb c "]" then true
      else if Ascii.eqb c "[" then false
      else closesPlainly r
  end.

(** After an opening bracket and the quote [q]: characters other than
    [q] and the backslash, or a backslash and a character that is no
    line terminator, up to [q] followed by the closing bracket. *)
Fixpoint closesQuoted (q : ascii) (s : string) : bool :=
  match s with
  | "" => false
  | String c r =>
      if Ascii.eqb c q then
        match r with
        | String "]" _ => true
        | _ => false
        end
      else if Ascii.eqb c "\" then
        match r with
        | String c2 r2 =>
            if Ascii.eqb c2 "010" || Ascii.eqb c2 "013" then false
            else closesQuoted q r2
        | "" => false
        end
      else closesQuoted q r
  end.

(** [reIsDeepProp]: a dot, or a bracket that closes plainly or around a
    quoted text, somewhere in the string. *)
Fixpoint reIsDeepProp (s : string) : bool :=
  match s with
  | "" => false
  | String c r =>
      Ascii.eqb c "."
      || Ascii.eqb c "["
         && (closesPlainly r
             || match r with
                | String q r' =>
                    (Ascii.eqb q "034" || Ascii.eqb q "'") && closesQuoted q r'
                | "" => false
                end)
      || reIsDeepProp r
  end.

(** lodash's [isKey] at a string and the environment. *)
Definition isKey (key : string) (object : gmap string string) : bool :=
  reIsPlainProp key || negb (reIsDeepProp key) || envHas object key.

(** [reIsUint]: the digit [0], or digits that do not start with [0]. *)
Definition reIsUint (s : string) : bool :=
  match s with
  | "" => false
  | String "0" "" => true
  | String "0" _ => false
  | _ => allChars Str.isDigit s
  end.

(** lodash's [isIndex] at a string: an unsigned integer below
    [MAX_SAFE_INTEGER]. *)
Definition isIndex (s : string) : bool :=
  reIsUint s && (Str.digitsValue 0 s <? 9007199254740991)%N.

(** The keys [baseSet] refuses to assign. *)
Definition unsafeKey (key : string) : bool :=
  String.eqb key "__proto__" || String.eqb key "constructor"
  || String.eqb key "prototype".

(** lodash's [isObject] *)
Definition isObject (v : value) : bool :=
  match v with
  | VArr _ | VObj _ | VFun _ => true
  | _ => false
  end.

(** A key that lodash reads as one property name and that
    [Object.prototype] does not define: at such a key [get] reads the
    environment variable of that name and nothing else. Every name made
    of letters, digits and underscores is one, the methods of
    [Object.prototype], [constructor] and [__proto__] apart. *)
Definition directKey (key : string) : bool :=
  (reIsPlainProp key || negb (reIsDeepProp key)) && negb (inObjectPrototype key).

(** A name under which the operating system stores a variable: it is
    not empty and holds neither [=] nor the null character. *)
Definition envName (key : string) : bool :=
  negb (Str.isEmpty key)
  && allChars (fun c => negb (Ascii.eqb c "=" || Ascii.eqb c "000")) key.

(** A direct key that [set] assigns and the environment keeps. *)
Definition settableKey (key : string) : bool :=
  directKey key && negb (String.eqb key "prototype") && envName key.

(** ** lodash and @lykmapipo/common *)

Section Lodash.

Context (H : Host).

(** lodash's [baseToString]. *)
Fixpoint baseToString (v : value) : string :=
  match v with
  | VStr s => s
  | VArr l => Str.join "," (List.map baseToString l)
  | VUndefined => "undefined"
  | VNull => "null"
  | VBool b => if b then "true" else "false"
  | VNum n =>
      let result := NumberToString H n in
      if String.eqb result "0" && PrimFloat.eqb (PrimFloat.div one n) neg_infinity
      then "-0" else result
  | VObj _ => "[object Object]"
  | VFun name => functionText name
  end.

(** lodash's [toString]: [value == null ? '' : baseToString(value)]. *)
Definition toString (v : value) : string :=
  match v with
  | VUndefined | VNull => ""
  | _ => baseToString v
  end.

(** ECMAScript's ToString, as a template literal and [process.env]
    apply it. *)
Fixpoint jsToString (v : value) : string :=
  match v with
  | VStr s => s
  | VArr l =>
      Str.join ","
        (List.map (fun x => match x with
                            | VUndefined | VNull => ""
                            | _ => jsToString x
                            end) l)
  | VUndefined => "undefined"
  | VNull => "null"
  | VBool b => if b then "true" else "false"
  | VNum n => NumberToString H n
  | VObj _ => "[object Object]"
  | VFun name => functionText name
  end.

(** lodash's [toNumber]. *)
Definition toNumber (v : value) : float :=
  match v with
  | VNum n => n
  | VStr s => StringToNumber H s
  | VBool b => if b then one else zero
  | VNull => zero
  | VUndefined => nan
  | VArr _ | VObj _ | VFun _ => StringToNumber H (jsToString v)
  end.

(** lodash's [trim] as [map] calls it (the index and the array in the
    places of [chars] and [guard]): the text of the value without its
    leading and trailing whitespace. *)
Definition trim (v : value) : string := Str.trimWhitespace (toString v).

(** lodash's [toLower]. *)
Definition toLower (v : value) : string := Str.toLowerCase (toString v).

(** lodash's [compact] on an array of strings: the empty string is
    the falsy one. *)
Definition compact (l : list string) : list string :=
  List.filter (fun s => negb (Str.isEmpty s)) l.

(** lodash's [baseUniq] without iteratee: the loop that pushes a value
    on [result] unless [result] holds it already. *)
Fixpoint baseUniq (result : list string) (array : list string) : list string :=
  match array with
  | [] => result
  | x :: rest =>
      if bool_decide (x ∈ result) then baseUniq result rest
      else baseUniq (result ++ [x])%list rest
  end.

Definition uniq (array : list string) : list string := baseUniq [] array.

(** [[].concat(v)]: an array is spread, anything else is one item. *)
Definition concat (v : value) : list value :=
  match v with
  | VArr l => l
  | _ => [v]
  end.

(** lodash's [last]. *)
Definition last (l : list string) : value :=
  match List.last (List.map Some l) None with
  | Some s => VStr s
  | None => VUndefined
  end.

(** [v.split(sep)]: a string has the method, and reading it off
    [undefined] or [null] raises. Numbers, booleans, arrays, objects and
    functions have no such method either, so the call raises as well. *)
Definition split_method (v : value) (sep : ascii) : result (list string) :=
  match v with
  | VStr s => Ok (Str.split sep s)
  | VUndefined | VNull => Throw (TypeError "Cannot read property 'split'")
  | _ => Throw (TypeError "split is not a function")
  end.

(** lodash's [stringToPath]: without a bracket the pieces between the
    dots, none for the empty string. *)
Definition stringToPath (s : string) : list string :=
  if negb (allChars (fun c => negb (Ascii.eqb c "[" || Ascii.eqb c "]")) s)
  then bracketPath H s
  else if Str.isEmpty s then []
  else Str.split "." s.

(** lodash's [castPath] at a string and the environment. *)
Definition castPath (key : string) (object : gmap string string) : list string :=
  if isKey key object then [key] else stringToPath key.

(** The loop of [baseGet] from the value reached: it stops at
    [undefined] and [null], and the result is [undefined] unless the
    whole path was walked. *)
Fixpoint walk (v : value) (path : list string) : value :=
  match path with
  | [] => v
  | key :: rest =>
      match v with
      | VUndefined | VNull => VUndefined
      | _ => walk (readProperty H v key) rest
      end
  end.

(** lodash's [baseGet] at the environment. *)
Definition baseGet (object : gmap string string) (path : list string) : value :=
  match path with
  | [] => VUndefined
  | key :: rest => walk (envRead object key) rest
  end.

(** lodash's [get] at the environment:
    [result === undefined ? defaultValue : result]. *)
Definition grab (object : gmap string string) (key : string) (defaultValue : value) : value :=
  match baseGet object (castPath key object) with
  | VUndefined => defaultValue
  | result => result
  end.

(** [process.env[key] = v]: the environment turns what it is assigned
    into a string. The properties of [set] are stated at the names the
    operating system stores ([envName]). *)
Definition assignValue (object : gmap string string) (key : string) (v : value)
  : gmap string string :=
  <[key := jsToString v]> object.

(** lodash's [set] at the environment, that is [baseSet]: nothing at an
    unsafe key; the value at a path of one key; at a longer path the
    first key receives the object it inherits there or else a fresh
    array or object, and the walk goes on from the string that the
    environment made of it, where an assignment does not change the
    environment. *)
Definition define (object : gmap string string) (key : string) (v : value)
  : gmap string string :=
  match castPath key object with
  | [] => object
  | [k] => if unsafeKey k then object else assignValue object k v
  | k :: k2 :: _ =>
      if unsafeKey k then object
      else
        let objValue := envRead object k in
        let newValue :=
          if isObject objValue then objValue
          else if isIndex k2 then VArr [] else VObj [] in
        assignValue object k newValue
  end.

(** Modelled from the spec: [sortedUniq] of @lykmapipo/common, which the
    module imports and the sources do not hold; it deduplicates and
    sorts lexicographically. On an array of strings: compact, uniq, then
    an ascending sort by code units. *)
Definition sortedUniq (l : list string) : list string :=
  merge_sort String.le (uniq (compact l)).

(** semver's [coerce]. *)
Definition coerce (version : value) : option SemVer :=
  match version with
  | VStr s => Semver.coerceString s
  | VNum n => Semver.coerceString (NumberToString H n)
  | _ => None
  end.

End Lodash.

(** ** The module: [src/index.js] *)

Record Options : Type := mkOptions {
  version : value;
  prefix : value;
  opt_major : value;
  opt_minor : value;
  opt_patch : value;
}.

(** [apiVersion()] and [apiVersion({ ... })] with some fields left out:
    a field that is absent reads [undefined]. *)
Definition noOptions : Options :=
  mkOptions VUndefined VUndefined VUndefined VUndefined VUndefined.

(** lodash's [merge({}, defaults, optns)] on the five fields: a source
    value that is [undefined] leaves the default. *)
Definition merge (defaults optns : Options) : Options :=
  mkOptions
    (default_param (version optns) (version defaults))
    (default_param (prefix optns) (prefix defaults))
    (default_param (opt_major optns) (opt_major defaults))
    (default_param (opt_minor optns) (opt_minor defaults))
    (default_param (opt_patch optns) (opt_patch defaults)).

Section Env.

Context (H : Host).

(** [dotenv.config({ path })]: read and parse the file, define the
    variables the environment does not have yet; an exception becomes
    the [error] of the output. *)
Definition loadEnv (path : string) : M DotenvConfigOutput :=
  fun st =>
    let st1 := mkState (env st) (once_n st) (once_result st) (reads st ++ [path])%list in
    match readFileSync H path with
    | Some src =>
        let parsed := parse H src in
        (Ok (DotenvParsed parsed),
         mkState (env st1 ∪ parsed) (once_n st1) (once_result st1) (reads st1))
    | None => (Ok DotenvError, st1)
    end.

(** The function [once] wraps. *)
Definition load_func : M DotenvConfigOutput :=
  let* e := processEnv in
  let BASE_PATH :=
    match e !! "BASE_PATH" with
    | Some p => if Str.isEmpty p then cwd H else p
    | None => cwd H
    end in
  let path := resolve H BASE_PATH ".env" in
  loadEnv path.

(** [load = once(func)], that is [before(2, func)]:
    [if (--n > 0) result = func(); return result]. *)
Definition load : M (option DotenvConfigOutput) :=
  fun st =>
    let n := once_n st - 1 in
    let st1 := mkState (env st) n (once_result st) (reads st) in
    if 0 <? n then
      match load_func st1 with
      | (Ok r, st2) =>
          (Ok (Some r), mkState (env st2) (once_n st2) (Some r) (reads st2))
      | (Throw e, st2) => (Throw e, st2)
      end
    else (Ok (once_result st1), st1).

Definition mapToNumber (v : value) : float := toNumber H v.

Definition mapToString (v : value) : string := toString H v.

Definition set (key : string) (v : value) : M value :=
  let* e := processEnv in
  let* _ := setProcessEnv (define H e key v) in
  ret v.

Definition get (key : string) (defaultValue : value) : M value :=
  let* _ := load in
  let* e := processEnv in
  let v := grab H e key defaultValue in
  ret v.

Definition clear (keys : list string) : M unit :=
  let* e := processEnv in
  setProcessEnv (List.fold_left (fun m key => delete key m) keys e).

Definition getArray (key : string) (defaultValue : value) : M (list string) :=
  let v := concat defaultValue in
  let* v :=
    if negb (Str.isEmpty key) then
      let* raw := get key (VStr "") in
      let* tokens := lift (split_method raw ",") in
      ret (v ++ List.map VStr tokens)%list
    else ret v in
  let v := List.map (trim H) v in
  let v := uniq (compact v) in
  ret v.

Definition getNumbers (key : string) (defaultValue : value) : M (list float) :=
  let* numbers := getArray key defaultValue in
  let numbers := List.map (fun s => mapToNumber (VStr s)) numbers in
  ret numbers.

Definition getNumber (key : string) (defaultValue : value) : M value :=
  let* v := get key defaultValue in
  let v := if truthy v then VNum (mapToNumber v) else v in
  ret v.

Definition getString (key : string) (defaultValue : value) : M value :=
  let* v := get key defaultValue in
  let v := if truthy v then VStr (mapToString v) else v in
  ret v.

Definition getStrings (key : string) (defaultValue : value) : M (list string) :=
  let* strings := getArray key defaultValue in
  let strings := List.map (fun s => mapToString (VStr s)) strings in
  ret strings.

Definition getStringSet (key : string) (defaultValue : value) : M (list string) :=
  let* strings := getStrings key defaultValue in
  let strings := sortedUniq strings in
  ret strings.

Definition getBoolean (key : string) (defaultValue : value) : M value :=
  let* v := get key defaultValue in
  let v := if isString v "false" then VBool false else v in
  let v := if isString v "true" then VBool true else v in
  let v := if truthy v then VBool (truthy v) else v in
  ret v.

Definition getObject (key : string) (defaultValue : value) : M value :=
  let defaultValue := default_param defaultValue (VObj []) in
  let* v := get key defaultValue in
  let v := if truthy v then autoParse H v else v in
  ret v.

(** [is] (the name is reserved here). *)
Definition is_ (e : value) : M bool :=
  let* node_env := get "NODE_ENV" VUndefined in
  ret (String.eqb (toLower H node_env) (toLower H e)).

Definition isTest : M bool := is_ (VStr "test").

Definition isDevelopment : M bool := is_ (VStr "development").

Definition isProduction : M bool := is_ (VStr "production").

(** [isTest() || isDevelopment()]: the second call is made only when
    the first returns false. *)
Definition isLocal : M bool :=
  let* t := isTest in
  if t then ret true else isDevelopment.

Definition isHeroku : M bool :=
  let* runtime_env := get "RUNTIME_ENV" VUndefined in
  ret (String.eqb (toLower H runtime_env) "heroku").

Definition defaultOptions : Options :=
  mkOptions (VStr "1.0.0") (VStr "v") (VBool true) (VBool false) (VBool false).

(** Reading [.major] off what [coerce] returned: off [null] the read
    raises. *)
Definition apiVersion (optns : Options) : M string :=
  let options := merge defaultOptions optns in
  let* v := getString "API_VERSION" (version options) in
  let parsedVersion := coerce H v in
  match parsedVersion with
  | None => throw (TypeError "Cannot read property 'major' of null")
  | Some parsedVersion =>
      let parsedApiVersion := Str.ofN (major parsedVersion) in
      let parsedApiVersion :=
        if truthy (opt_minor options)
        then Str.join "." [Str.ofN (major parsedVersion); Str.ofN (minor parsedVersion)]
        else parsedApiVersion in
      let parsedApiVersion :=
        if truthy (opt_patch options)
        then Str.join "." [Str.ofN (major parsedVersion); Str.ofN (minor parsedVersion);
                           Str.ofN (patch parsedVersion)]
        else parsedApiVersion in
      ret (jsToString H (prefix options) +:+ parsedApiVersion)
  end.

Definition getLocale (defaultLocale : value) : M value :=
  let defaultLocale := default_param defaultLocale (VStr "sw") in
  let locale :=
    or_else (VStr (osLocale H true)) (or_else (VStr (osLocale H false)) defaultLocale) in
  getString "DEFAULT_LOCALE" locale.

Definition getCountryCode (defaultCountryCode : value) : M value :=
  let defaultCountryCode := default_param defaultCountryCode (VStr "TZ") in
  let countryCode := defaultCountryCode in
  let* locale := getLocale VUndefined in
  let* parts := lift (split_method locale "_") in
  let* countryCode :=
    if (1 <? List.length parts)%nat then
      let* locale := getLocale VUndefined in
      let* parts := lift (split_method locale "_") in
      ret (last parts)
    else ret countryCode in
  let* locale := getLocale VUndefined in
  let* parts := lift (split_method locale "-") in
  let* countryCode :=
    if (1 <? List.length parts)%nat then
      let* locale := getLocale VUndefined in
      let* parts := lift (split_method locale "-") in
      ret (last parts)
    else ret countryCode in
  getString "DEFAULT_COUNTRY_CODE" countryCode.

End Env.

(** ** A host for the examples

    The working directory is [/app]; the file [/app/.env] holds the one
    line [CATEGORIES=a, a, ,b]; the OS locale is [en_US]. Numbers are
    read and printed at zero only: everything else reads as NaN. Of the
    properties of values it knows the length and the characters of a
    string, and it parses no bracket in a path. *)

Definition exampleHost : Host := {|
  cwd := "/app";
  resolve := fun base name => base +:+ "/" +:+ name;
  readFileSync := fun path =>
    if String.eqb path "/app/.env" then Some "CATEGORIES=a, a, ,b" else None;
  parse := fun src =>
    match Str.split "=" src with
    | [k; v] => {[ k := v ]}
    | _ => ∅
    end;
  osLocale := fun _ => "en_US";
  StringToNumber := fun s => if String.eqb s "0" then zero else nan;
  NumberToString := fun n => if is_zero n then "0" else "NaN";
  autoParse := fun v => v;
  readProperty := fun v key =>
    match v with
    | VStr s =>
        if String.eqb key "length"
        then VNum (PrimFloat.of_uint63 (Uint63.of_Z (Z.of_nat (String.length s))))
        else if isIndex key
        then match String.get (N.to_nat (Str.digitsValue 0 key)) s with
             | Some c => VStr (String c "")
             | None => VUndefined
             end
        else VUndefined
    | _ => VUndefined
    end;
  bracketPath := fun s => [s];
|}.

(** * The vocabulary of the properties *)

(** Deduplication that keeps the first occurrence: the head stays and
    its later copies go. *)
Fixpoint firstSeen (l : list string) : list string :=
  match l with
  | [] => []
  | x :: r => x :: List.filter (fun y => negb (String.eqb y x)) (firstSeen r)
  end.

Definition nonEmpty (s : string) : bool := negb (Str.isEmpty s).

(** The items a default stands for, in the words of the specification:
    [undefined] is no item, an array is its items, any other value is
    one item. *)
Definition items (d : value) : list value :=
  match d with
  | VUndefined => []
  | VArr l => l
  | _ => [d]
  end.

(** A default as a caller of [getCountryCode] gives it: a string, or
    nothing. *)
Definition optional (d : option string) : value :=
  match d with
  | Some s => VStr s
  | None => VUndefined
  end.

(** The calls a program makes to the module. *)
Inductive call : Type :=
| CallLoad
| CallSet (key : string) (v : value)
| CallGet (key : string) (d : value)
| CallClear (keys : list string)
| CallGetArray (key : string) (d : value)
| CallGetNumbers (key : string) (d : value)
| CallGetNumber (key : string) (d : value)
| CallGetString (key : string) (d : value)
| CallGetStrings (key : string) (d : value)
| CallGetStringSet (key : string) (d : value)
| CallGetBoolean (key : string) (d : value)
| CallGetObject (key : string) (d : value)
| CallIs (e : value)
| CallIsTest
| CallIsDevelopment
| CallIsProduction
| CallIsLocal
| CallIsHeroku
| CallApiVersion (optns : Options)
| CallGetLocale (d : value)
| CallGetCountryCode (d : value).

Section Vocabulary.

Context (H : Host).

(** The Store as a read finds it: the environment once [load] has been
    called. *)
Definition Store (st : State) : gmap string string := env (after (load H) st).

(** One more call of [load] on a state where the file was read. *)
Definition tick (st : State) : State :=
  mkState (env st) (once_n st - 1) (once_result st) (reads st).

(** [st'] is a state of the same process after the initialiser ran: the
    environment is the Store of [st], and the memo and the log are those
    the first [load] left. *)
Definition settled (st st' : State) : Prop :=
  once_n st' <= 1 /\
  env st' = Store st /\
  once_result st' = once_result (after (load H) st) /\
  reads st' = reads (after (load H) st).

Definition progress (st st' : State) : Prop := st' = st \/ settled st st'.

(** [m] returns [F] of the Store, whatever the state of [once], and
    leaves the state where it was or settled. *)
Definition tracks {A} (m : M A) (F : gmap string string -> result A) : Prop :=
  forall st, once_n st <= 2 ->
    returned m st = F (Store st) /\ progress st (after m st).

(** [m] leaves the state where it was or settled. *)
Definition proceeds {A} (m : M A) : Prop :=
  forall st, once_n st <= 2 -> progress st (after m st).

(** The state of [once]: either nothing was called and nothing read, or
    the wrapped function ran, its result is kept and the log holds its
    one read. *)
Definition once_inv (st : State) : Prop :=
  (once_n st = 2 /\ once_result st = None /\ reads st = []) \/
  (once_n st <= 1 /\ is_Some (once_result st) /\ List.length (reads st) = 1%nat).

(** [st'] keeps the memo and the log of [st], where the file was read. *)
Definition keeps (st st' : State) : Prop :=
  once_n st' <= 1 /\ once_result st' = once_result st /\ reads st' = reads st.

(** The state a call leaves, whether it returned or raised. *)
Definition exec (c : call) (st : State) : State :=
  match c with
  | CallLoad => after (load H) st
  | CallSet key v => after (set H key v) st
  | CallGet key d => after (get H key d) st
  | CallClear keys => after (clear keys) st
  | CallGetArray key d => after (getArray H key d) st
  | CallGetNumbers key d => after (getNumbers H key d) st
  | CallGetNumber key d => after (getNumber H key d) st
  | CallGetString key d => after (getString H key d) st
  | CallGetStrings key d => after (getStrings H key d) st
  | CallGetStringSet key d => after (getStringSet H key d) st
  | CallGetBoolean key d => after (getBoolean H key d) st
  | CallGetObject key d => after (getObject H key d) st
  | CallIs e => after (is_ H e) st
  | CallIsTest => after (isTest H) st
  | CallIsDevelopment => after (isDevelopment H) st
  | CallIsProduction => after (isProduction H) st
  | CallIsLocal => after (isLocal H) st
  | CallIsHeroku => after (isHeroku H) st
  | CallApiVersion optns => after (apiVersion H optns) st
  | CallGetLocale d => after (getLocale H d) st
  | CallGetCountryCode d => after (getCountryCode H d) st
  end.

Definition run (calls : list call) (st : State) : State :=
  List.fold_left (fun st c => exec c st) calls st.

(** The tokens [getArray] starts from, in the words of the
    specification: the text of the default's items, then the pieces of
    the Store's string for [key] between commas (the empty string when
    the key is absent). *)
Definition tokens (S : gmap string string) (key : string) (d : value)
  : list string :=
  (List.map (toString H) (items d) ++ Str.split "," (default "" (S !! key)))%list.

(** What [getArray] makes of the default and of the pieces [pieces]
    that [split] returned. *)
Definition getArray_with (pieces : list string) (d : value) : list string :=
  uniq (compact (List.map (trim H) (concat d ++ List.map VStr pieces)%list)).

(** What [getArray] computes from the Store at a direct key. *)
Definition getArray_of (S : gmap string string) (key : string) (d : value)
  : list string :=
  getArray_with
    (if negb (Str.isEmpty key) then Str.split "," (default "" (S !! key)) else [])
    d.

(** What [getArray] returns on the Store: the pieces are those of the
    value the accessor resolves, and the call raises when that value has
    no [split]. *)
Definition getArray_in (S : gmap string string) (key : string) (d : value)
  : result (list string) :=
  if negb (Str.isEmpty key) then
    match split_method (grab H S key (VStr "")) "," with
    | Ok pieces => Ok (getArray_with pieces d)
    | Throw e => Throw e
    end
  else Ok (getArray_with [] d).

(** What [is(e)] computes from the Store. *)
Definition is_of (S : gmap string string) (e : value) : bool :=
  String.eqb (toLower H (grab H S "NODE_ENV" VUndefined)) (toLower H e).

(** The text [apiVersion] makes of a version under the options. *)
Definition formatVersion (options : Options) (v : SemVer) : string :=
  jsToString H (prefix options) +:+
  (if truthy (opt_patch options)
   then Str.ofN (major v) +:+ "." +:+ Str.ofN (minor v) +:+ "." +:+ Str.ofN (patch v)
   else if truthy (opt_minor options)
   then Str.ofN (major v) +:+ "." +:+ Str.ofN (minor v)
   else Str.ofN (major v)).

(** The truthy gate of [getString]. *)
Definition gateString (v : value) : value :=
  if truthy v then VStr (mapToString H v) else v.

(** The locale [getLocale()] returns, from the Store. *)
Definition localeOf (S : gmap string string) : value :=
  gateString
    (grab H S "DEFAULT_LOCALE"
       (or_else (VStr (osLocale H true))
                (or_else (VStr (osLocale H false)) (VStr "sw")))).

(** The country code the locale gives, before the Store override. *)
Definition derivedCountryCode (loc : string) (defaultCountryCode : value) : value :=
  let countryCode := defaultCountryCode in
  let countryCode :=
    if (1 <? List.length (Str.split "_" loc))%nat
    then last (Str.split "_" loc) else countryCode in
  let countryCode :=
    if (1 <? List.length (Str.split "-" loc))%nat
    then last (Str.split "-" loc) else countryCode in
  countryCode.

(** The file the wrapped loader reads: [.env] under [BASE_PATH], or
    under the working directory when [BASE_PATH] is absent or empty. *)
Definition envPath (e : gmap string string) : string :=
  resolve H
    (match e !! "BASE_PATH" with
     | Some p => if Str.isEmpty p then cwd H else p
     | None => cwd H
     end) ".env".

(** The variables the file at [path] defines; none when it cannot be
    read. *)
Definition fileVars (path : string) : gmap string string :=
  match readFileSync H path with
  | Some src => parse H src
  | None => ∅
  end.

(** What [dotenv.config] returns for the file at [path]. *)
Definition dotenvOutput (path : string) : DotenvConfigOutput :=
  match readFileSync H path with
  | Some src => DotenvParsed (parse H src)
  | None => DotenvError
  end.

End Vocabulary.

(** * Properties *)

(** ** The model at small inputs *)

Example trimWhitespace_example : Str.trimWhitespace "  a b  " = "a b".
Proof. reflexivity. Qed.

Example split_example : Str.split "," "a, a, ,b" = ["a"; " a"; " "; "b"].
Proof. reflexivity. Qed.

Example split_empty_example : Str.split "," "" = [""].
Proof. reflexivity. Qed.

Example truthy_numbers_example :
  truthy (VNum zero) = false /\ truthy (VNum nan) = false /\ truthy (VNum one) = true.
Proof. repeat split; reflexivity. Qed.

Example coerce_example :
  Semver.coerceString "2.3.4" = Some (mkSemVer 2 3 4) /\
  Semver.coerceString "v2" = Some (mkSemVer 2 0 0) /\
  Semver.coerceString "1.2.3.4" = Some (mkSemVer 1 2 3) /\
  Semver.coerceString "1.2.3/a/b/c/2.3.4" = Some (mkSemVer 1 2 3) /\
  Semver.coerceString "latest" = None /\
  Semver.coerceString "9999999999999999" = None /\
  Semver.coerceString "11111111111111111" = None.
Proof. repeat split; reflexivity. Qed.

Example uniq_example : uniq ["b"; "a"; "b"; "c"; "a"] = ["b"; "a"; "c"].
Proof. reflexivity. Qed.

Example sortedUniq_example : sortedUniq ["b"; ""; "a"; "b"] = ["a"; "b"].
Proof. vm_compute. reflexivity. Qed.

Example load_example :
  reads (after (load exampleHost) (initial ∅)) = ["/app/.env"] /\
  env (after (load exampleHost) (initial ∅)) !! "CATEGORIES" = Some "a, a, ,b" /\
  reads (after (let* _ := load exampleHost in load exampleHost) (initial ∅))
  = ["/app/.env"].
Proof. repeat split; vm_compute; reflexivity. Qed.

Example load_keeps_environment_example :
  env (after (load exampleHost) (initial {[ "CATEGORIES" := "x" ]})) !! "CATEGORIES"
  = Some "x".
Proof. vm_compute. reflexivity. Qed.

Example getNumbers_example :
  returned (getNumbers exampleHost "AGES" (VArr [VStr "0"; VStr "n"])) (initial ∅)
  = Ok [zero; nan].
Proof. vm_compute. reflexivity. Qed.

Example isHeroku_example :
  returned (isHeroku exampleHost) (initial {[ "RUNTIME_ENV" := "Heroku" ]}) = Ok true.
Proof. vm_compute. reflexivity. Qed.

(** [get] follows a path into the stored string and finds what the
    environment inherits; a name with a hyphen is one key. *)
Example get_paths_example :
  returned (get exampleHost "K.length" (VStr "d")) (initial {[ "K" := "a" ]})
  = Ok (VNum one) /\
  returned (get exampleHost "K.0" (VStr "d")) (initial {[ "K" := "a" ]})
  = Ok (VStr "a") /\
  returned (get exampleHost "K.x" (VStr "d")) (initial {[ "K" := "a" ]})
  = Ok (VStr "d") /\
  returned (get exampleHost "constructor" (VStr "d")) (initial ∅)
  = Ok (VFun "Object") /\
  returned (get exampleHost "toString" (VStr "d")) (initial ∅)
  = Ok (VFun "toString") /\
  returned (get exampleHost "MY-VAR" (VStr "d")) (initial {[ "MY-VAR" := "v" ]})
  = Ok (VStr "v").
Proof. repeat split; vm_compute; reflexivity. Qed.

(** [set] at a path assigns an object or an array at the first key,
    which the environment stores as text, and assigns nothing at
    [constructor]. *)
Example set_paths_example :
  env (after (set exampleHost "A.B" (VStr "x")) (initial ∅)) !! "A"
  = Some "[object Object]" /\
  env (after (set exampleHost "A.B" (VStr "x")) (initial ∅)) !! "A.B" = None /\
  env (after (set exampleHost "A.0" (VStr "x")) (initial ∅)) !! "A" = Some "" /\
  env (after (set exampleHost "constructor" (VStr "x")) (initial ∅)) !! "constructor"
  = None /\
  returned (let* _ := set exampleHost "A.B" (VStr "x") in
            get exampleHost "A.B" (VStr "d")) (initial ∅) = Ok (VStr "d") /\
  returned (let* _ := set exampleHost "A.B" (VStr "x") in
            get exampleHost "A" (VStr "d")) (initial ∅) = Ok (VStr "[object Object]").
Proof. repeat split; vm_compute; reflexivity. Qed.

(** ** Reading and writing the environment through lodash *)

Section Paths.

Context (H : Host).

Lemma objectPrototype_absent key :
  inObjectPrototype key = false -> objectPrototype key = VUndefined.
Proof.
  unfold inObjectPrototype, objectPrototype. intros Hk.
  destruct (String.eqb key "constructor"); [discriminate|].
  destruct (String.eqb key "__proto__"); [discriminate|].
  simpl in Hk. by rewrite Hk.
Qed.

Lemma directKey_spec key :
  directKey key = true ->
  (forall S, castPath H key S = [key]) /\ inObjectPrototype key = false.
Proof.
  unfold directKey. intros [Hd Hp%negb_true_iff]%andb_true_iff.
  split; [|exact Hp]. intros S. unfold castPath, isKey. by rewrite Hd.
Qed.

(** At a direct key [get] is the lookup of the variable, with the
    default when there is none. *)
Lemma grab_direct S key d :
  directKey key = true ->
  grab H S key d = match S !! key with Some v => VStr v | None => d end.
Proof.
  intros [Hc Hp]%directKey_spec. unfold grab. rewrite Hc. simpl. unfold envRead.
  destruct (S !! key); [reflexivity|]. by rewrite objectPrototype_absent.
Qed.

(** At any key that names a variable of the environment [get] returns
    that variable. *)
Lemma grab_present S key d v : S !! key = Some v -> grab H S key d = VStr v.
Proof.
  intros Hv. unfold grab, castPath, isKey, envHas.
  rewrite bool_decide_true by (rewrite Hv; eauto).
  rewrite orb_true_r. simpl. unfold envRead. by rewrite Hv.
Qed.

(** At a settable key [set] is the assignment of the variable. *)
Lemma define_settable S key v :
  settableKey key = true -> define H S key v = <[key := jsToString H v]> S.
Proof.
  unfold settableKey. intros [[Hd Hn%negb_true_iff]%andb_true_iff _]%andb_true_iff.
  destruct (directKey_spec key Hd) as [Hc Hp].
  unfold define. rewrite Hc. unfold unsafeKey.
  unfold inObjectPrototype in Hp.
  destruct (String.eqb key "constructor"); [discriminate|].
  destruct (String.eqb key "__proto__"); [discriminate|].
  by rewrite Hn.
Qed.

End Paths.

(** ** The initialiser and the state it leaves *)

Section Initializer.

Context (H : Host).

Lemma load_func_ok st :
  exists r st', load_func H st = (Ok r, st') /\ once_n st' = once_n st /\
                once_result st' = once_result st /\
                exists p, reads st' = (reads st ++ [p])%list.
Proof.
  unfold load_func, bind, processEnv, loadEnv; simpl.
  destruct (readFileSync H _); eauto 10.
Qed.

Lemma load_warm st :
  once_n st <= 1 -> load H st = (Ok (once_result st), tick st).
Proof.
  intros Hn. unfold load.
  destruct (0 <? once_n st - 1) eqn:E; [apply Z.ltb_lt in E; lia | reflexivity].
Qed.

Lemma load_cold st :
  once_n st = 2 ->
  exists r st', load H st = (Ok (Some r), st') /\ once_n st' = 1 /\
                once_result st' = Some r /\
                exists p, reads st' = (reads st ++ [p])%list.
Proof.
  intros Hn. unfold load. rewrite Hn.
  change (2 - 1) with 1. change (0 <? 1) with true. cbv iota.
  destruct (load_func_ok (mkState (env st) 1 (once_result st) (reads st)))
    as (r & st' & -> & Hn' & _ & Hr).
  simpl in *. eauto 10.
Qed.

(** [load] never raises. *)
Lemma load_ok st : exists r, returned (load H) st = Ok r.
Proof.
  unfold returned, load.
  destruct (0 <? once_n st - 1).
  - destruct (load_func_ok (mkState (env st) (once_n st - 1) (once_result st) (reads st)))
      as (r & st' & -> & _). simpl. eauto.
  - simpl. eauto.
Qed.

Lemma load_settles st : once_n st <= 2 -> settled H st (after (load H) st).
Proof.
  intros Hn. unfold settled, Store. repeat split; try reflexivity.
  destruct (Z.eq_dec (once_n st) 2) as [E|E].
  - destruct (load_cold st E) as (r & st' & Hl & Hn' & _).
    unfold after. rewrite Hl. simpl. lia.
  - unfold after. rewrite load_warm by lia. simpl. lia.
Qed.

Lemma settled_after_load st st' :
  settled H st st' -> settled H st (after (load H) st').
Proof.
  intros (Hn & He & Hr & Hl). unfold after at 1. rewrite load_warm by exact Hn.
  unfold settled, tick; simpl. repeat split; auto; lia.
Qed.

Lemma settled_Store st st' : settled H st st' -> Store H st' = Store H st.
Proof. intros Hs. apply settled_after_load in Hs. apply Hs. Qed.

Lemma settled_trans st st' st'' :
  settled H st st' -> settled H st' st'' -> settled H st st''.
Proof.
  intros Hs (Hn & He & Hr & Hl).
  pose proof (settled_after_load _ _ Hs) as (_ & He' & Hr' & Hl').
  unfold settled. unfold Store in He. repeat split; congruence.
Qed.

Lemma progress_le st st' : once_n st <= 2 -> progress H st st' -> once_n st' <= 2.
Proof. intros Hn [-> | (Hn' & _)]; lia. Qed.

Lemma progress_Store st st' : progress H st st' -> Store H st' = Store H st.
Proof. intros [-> | Hs]; [reflexivity | by apply settled_Store]. Qed.

Lemma progress_trans st st' st'' :
  progress H st st' -> progress H st' st'' -> progress H st st''.
Proof.
  intros [-> | Hs] [-> | Hs']; unfold progress; eauto using settled_trans.
Qed.

(** *** The rules of [tracks] *)

Lemma tracks_ret {A} (a : A) : tracks H (ret a) (fun _ => Ok a).
Proof. intros st _. split; [reflexivity | by left]. Qed.

Lemma tracks_lift {A} (r : result A) : tracks H (lift r) (fun _ => r).
Proof. intros st _. split; [reflexivity | by left]. Qed.

Lemma tracks_throw {A} e : tracks H (@throw A e) (fun _ => Throw e).
Proof. intros st _. split; [reflexivity | by left]. Qed.

Lemma tracks_bind {A B} (m : M A) (k : A -> M B) F G :
  tracks H m F -> (forall a, tracks H (k a) (G a)) ->
  tracks H (bind m k)
         (fun S => match F S with Ok a => G a S | Throw e => Throw e end).
Proof.
  intros Hm Hk st Hn. destruct (Hm st Hn) as [Hr Hp].
  unfold returned, after, bind in *.
  destruct (m st) as [[a|e] st1] eqn:E; simpl in *; rewrite <- Hr.
  - destruct (Hk a st1 (progress_le _ _ Hn Hp)) as [Hr' Hp'].
    rewrite (progress_Store _ _ Hp) in Hr'.
    split; [exact Hr' | eauto using progress_trans].
  - split; [reflexivity | exact Hp].
Qed.

Lemma tracks_if {A} (b : bool) (m1 m2 : M A) F1 F2 :
  tracks H m1 F1 -> tracks H m2 F2 ->
  tracks H (if b then m1 else m2) (fun S => if b then F1 S else F2 S).
Proof. by destruct b. Qed.

Lemma tracks_ext {A} (m : M A) F F' :
  tracks H m F -> (forall S, F S = F' S) -> tracks H m F'.
Proof. intros Hm HF st Hn. rewrite <- HF. by apply Hm. Qed.

Lemma get_run st key d :
  get H key d st = (Ok (grab H (Store H st) key d), after (load H) st).
Proof.
  unfold get, bind, processEnv, ret, Store, after.
  destruct (load_ok st) as [r Hr]. unfold returned in Hr.
  destruct (load H st) as [[r'|e] st1]; simpl in *; [reflexivity | discriminate].
Qed.

Lemma tracks_get key d : tracks H (get H key d) (fun S => Ok (grab H S key d)).
Proof.
  intros st Hn. unfold returned, after. rewrite get_run. simpl.
  split; [reflexivity | right; by apply load_settles].
Qed.

(** *** The rules of [proceeds] *)

Lemma tracks_proceeds {A} (m : M A) F : tracks H m F -> proceeds H m.
Proof. intros Hm st Hn. apply (Hm st Hn). Qed.

Lemma proceeds_ret {A} (a : A) : proceeds H (ret a).
Proof. intros st _. by left. Qed.

Lemma proceeds_lift {A} (r : result A) : proceeds H (lift r).
Proof. intros st _. by left. Qed.

Lemma proceeds_throw {A} e : proceeds H (@throw A e).
Proof. intros st _. by left. Qed.

Lemma proceeds_load : proceeds H (load H).
Proof. intros st Hn. right. by apply load_settles. Qed.

Lemma proceeds_get key d : proceeds H (get H key d).
Proof. eapply tracks_proceeds, tracks_get. Qed.

Lemma proceeds_bind {A B} (m : M A) (k : A -> M B) :
  proceeds H m -> (forall a, proceeds H (k a)) -> proceeds H (bind m k).
Proof.
  intros Hm Hk st Hn. specialize (Hm st Hn). unfold after, bind in *.
  destruct (m st) as [[a|e] st1]; simpl in *; [|exact Hm].
  eapply progress_trans; [exact Hm|].
  apply Hk. eauto using progress_le.
Qed.

End Initializer.

(** Decomposes a goal [proceeds H m] along the binds, branches and
    reads of [m]. *)
Ltac solve_proceeds :=
  repeat first
    [ apply proceeds_get | apply proceeds_ret | apply proceeds_lift
    | apply proceeds_throw | apply proceeds_load
    | apply proceeds_bind; [|intros ?]
    | match goal with
      | |- proceeds _ (if ?b then _ else _) => destruct b
      | |- proceeds _ (match ?o with Some _ => _ | None => _ end) => destruct o
      end ].

(** ** The Store accessor and the scalar getters *)

Section Accessor.

Context (H : Host).

Lemma get_returned st key d :
  returned (get H key d) st = Ok (grab H (Store H st) key d).
Proof. unfold returned. by rewrite get_run. Qed.

Lemma getNumber_returned st key d :
  returned (getNumber H key d) st =
  Ok (let v := grab H (Store H st) key d in
      if truthy v then VNum (mapToNumber H v) else v).
Proof. unfold returned, getNumber, bind, ret. by rewrite get_run. Qed.

Lemma getString_run st key d :
  getString H key d st =
  (Ok (gateString H (grab H (Store H st) key d)), after (load H) st).
Proof. unfold getString, bind, ret. by rewrite get_run. Qed.

Lemma getString_returned st key d :
  returned (getString H key d) st = Ok (gateString H (grab H (Store H st) key d)).
Proof. unfold returned. by rewrite getString_run. Qed.

Lemma getBoolean_returned st key d :
  returned (getBoolean H key d) st =
  Ok (let v := grab H (Store H st) key d in
      let v := if isString v "false" then VBool false else v in
      let v := if isString v "true" then VBool true else v in
      if truthy v then VBool (truthy v) else v).
Proof. unfold returned, getBoolean, bind, ret. by rewrite get_run. Qed.

(** No getter of a number raises: the caller gets a value, NaN
    included. *)
Lemma getNumber_total st key d : exists v, returned (getNumber H key d) st = Ok v.
Proof. rewrite getNumber_returned. eauto. Qed.

Lemma gateString_VStr s : gateString H (VStr s) = VStr s.
Proof. unfold gateString. by destruct (truthy (VStr s)). Qed.

Lemma tracks_getString key d :
  tracks H (getString H key d) (fun S => Ok (gateString H (grab H S key d))).
Proof.
  unfold getString. eapply tracks_ext.
  - eapply tracks_bind; [apply tracks_get | intros v; apply tracks_ret].
  - reflexivity.
Qed.

End Accessor.

(** C1, as the code has it. When [key] names a variable of the Store,
    [get(key, d)] returns the stored string itself, for every key and
    every default and also when that string is falsy (the empty string,
    ["0"]): nothing is coerced. At a direct key that is absent it
    returns the default. So at a direct key [get(key, d)] returns [d]
    exactly when the key is absent or the stored string is [d]
    itself. *)
Theorem get_default_iff_absent_or_equal (H : Host) (st : State) (key : string) (d : value) :
  let S := Store H st in
  (forall v, S !! key = Some v -> returned (get H key d) st = Ok (VStr v)) /\
  (S !! key = Some "" -> returned (get H key d) st = Ok (VStr "")) /\
  (S !! key = Some "0" -> returned (get H key d) st = Ok (VStr "0")) /\
  (directKey key = true -> S !! key = None -> returned (get H key d) st = Ok d) /\
  (directKey key = true ->
   (returned (get H key d) st = Ok d <->
    S !! key = None \/ exists v, S !! key = Some v /\ d = VStr v)).
Proof.
  cbv zeta.
  assert (Hpresent : forall v, Store H st !! key = Some v ->
                       returned (get H key d) st = Ok (VStr v)).
  { intros v Hv. rewrite get_returned. by rewrite (grab_present H _ _ _ v). }
  split; [exact Hpresent|]. split; [apply Hpresent|]. split; [apply Hpresent|].
  split.
  - intros Hk Habs. rewrite get_returned, grab_direct by exact Hk. by rewrite Habs.
  - intros Hk. rewrite get_returned, grab_direct by exact Hk.
    destruct (Store H st !! key) as [v|].
    + split.
      * intros [= Hd]. right. eauto.
      * intros [[=] | (v' & [= <-] & ->)]. reflexivity.
    + split; [by left | reflexivity].
Qed.

(** C1 at the example host, at the variable [CATEGORIES] that the file
    defines and at the absent [MISSING]. *)
Lemma get_default_iff_absent_or_equal_witness :
  returned (get exampleHost "CATEGORIES" (VStr "d")) (initial ∅) = Ok (VStr "a, a, ,b") /\
  returned (get exampleHost "MISSING" (VStr "d")) (initial ∅) = Ok (VStr "d").
Proof.
  split.
  - exact (proj1 (get_default_iff_absent_or_equal exampleHost (initial ∅) "CATEGORIES" (VStr "d"))
             "a, a, ,b" eq_refl).
  - exact (proj1 (proj2 (proj2 (proj2
             (get_default_iff_absent_or_equal exampleHost (initial ∅) "MISSING" (VStr "d")))))
             eq_refl eq_refl).
Defined.

(** C1 as worded fails in both directions. The key [constructor] is
    absent from the Store and [get] returns the function the
    environment inherits, not the default; and at the stored key [K]
    the default ["x"] is returned while the key is present, because it
    is the stored value. *)
Lemma get_default_iff_absent_counterexample :
  (Store exampleHost (initial ∅) !! "constructor" = None /\
   returned (get exampleHost "constructor" (VStr "d")) (initial ∅) = Ok (VFun "Object")) /\
  (Store exampleHost (initial {[ "K" := "x" ]}) !! "K" = Some "x" /\
   returned (get exampleHost "K" (VStr "x")) (initial {[ "K" := "x" ]}) = Ok (VStr "x")).
Proof. repeat split; vm_compute; reflexivity. Qed.

(** C7. [getNumber] and [getString] resolve the value with
    [get(key, defaultValue)] and run their coercer on it only when it is
    truthy; a falsy resolved value comes back as it is. At a direct key
    that is absent the resolved value is the default, so a default of 0,
    of the empty string, or [undefined] when there is no default come
    back unchanged; and so does a stored empty string. *)
Theorem getNumber_getString_truthy_gate (H : Host) (st : State) (key : string) (d : value) :
  (exists v,
     returned (get H key d) st = Ok v /\
     returned (getNumber H key d) st = Ok (if truthy v then VNum (mapToNumber H v) else v) /\
     returned (getString H key d) st = Ok (if truthy v then VStr (mapToString H v) else v) /\
     (truthy v = false ->
      returned (getNumber H key d) st = Ok v /\ returned (getString H key d) st = Ok v)) /\
  (directKey key = true -> Store H st !! key = None ->
     returned (getNumber H key (VNum zero)) st = Ok (VNum zero) /\
     returned (getNumber H key (VStr "")) st = Ok (VStr "") /\
     returned (getNumber H key VUndefined) st = Ok VUndefined /\
     returned (getString H key (VNum zero)) st = Ok (VNum zero) /\
     returned (getString H key (VStr "")) st = Ok (VStr "") /\
     returned (getString H key VUndefined) st = Ok VUndefined) /\
  (Store H st !! key = Some "" ->
     returned (getNumber H key d) st = Ok (VStr "") /\
     returned (getString H key d) st = Ok (VStr "")).
Proof.
  split; [|split].
  - exists (grab H (Store H st) key d).
    rewrite get_returned, getNumber_returned, getString_returned. unfold gateString.
    cbv zeta. split; [reflexivity|]. split; [reflexivity|]. split; [reflexivity|].
    by intros ->.
  - intros Hk E. rewrite !getNumber_returned, !getString_returned. unfold gateString.
    rewrite !grab_direct by exact Hk. rewrite E. by repeat split.
  - intros E. rewrite getNumber_returned, getString_returned. unfold gateString.
    rewrite (grab_present H _ _ _ "") by exact E. by split.
Qed.

(** C8. [getBoolean] turns the resolved strings ["false"] and ["true"]
    into the booleans, any other truthy resolved value into [true], and
    returns a falsy resolved value as it is; so a stored ["yes"] gives
    [true], and at a direct key that is absent the default [false] is
    the resolved value and comes back as [false]. *)
Theorem getBoolean_literals_and_truthiness (H : Host) (st : State) (key : string) (d : value) :
  (exists v,
     returned (get H key d) st = Ok v /\
     returned (getBoolean H key d) st =
     Ok (if isString v "false" then VBool false
         else if isString v "true" then VBool true
         else if truthy v then VBool true
         else v)) /\
  (Store H st !! key = Some "false" -> returned (getBoolean H key d) st = Ok (VBool false)) /\
  (Store H st !! key = Some "true" -> returned (getBoolean H key d) st = Ok (VBool true)) /\
  (Store H st !! key = Some "yes" -> returned (getBoolean H key d) st = Ok (VBool true)) /\
  (directKey key = true -> Store H st !! key = None ->
     returned (getBoolean H key (VBool false)) st = Ok (VBool false)).
Proof.
  split.
  - exists (grab H (Store H st) key d).
    rewrite get_returned, getBoolean_returned. split; [reflexivity|].
    cbv zeta. destruct (isString (grab H (Store H st) key d) "false"); [reflexivity|].
    destruct (isString (grab H (Store H st) key d) "true"); [reflexivity|].
    by destruct (truthy (grab H (Store H st) key d)).
  - split; [|split; [|split]].
    + intros E. rewrite getBoolean_returned, (grab_present H _ _ _ "false") by exact E.
      reflexivity.
    + intros E. rewrite getBoolean_returned, (grab_present H _ _ _ "true") by exact E.
      reflexivity.
    + intros E. rewrite getBoolean_returned, (grab_present H _ _ _ "yes") by exact E.
      reflexivity.
    + intros Hk E. rewrite getBoolean_returned, grab_direct by exact Hk. by rewrite E.
Qed.

(** ** Arrays: [uniq], [sortedUniq], [getArray] and its callers *)

Section Arrays.

Lemma filter_andb {A} (f g : A -> bool) l :
  List.filter f (List.filter g l) = List.filter (fun y => f y && g y) l.
Proof.
  induction l as [|x l IH]; [reflexivity|]. simpl.
  destruct (g x) eqn:Eg, (f x) eqn:Ef; simpl; rewrite ?Ef, IH; reflexivity.
Qed.

Lemma filter_swap {A} (f g : A -> bool) l :
  List.filter f (List.filter g l) = List.filter g (List.filter f l).
Proof. rewrite !filter_andb. apply filter_ext. intros y. apply andb_comm. Qed.

Lemma elem_of_bfilter {A} (f : A -> bool) l x :
  x ∈ List.filter f l <-> x ∈ l /\ f x = true.
Proof. rewrite !list_elem_of_In. apply filter_In. Qed.

Lemma firstSeen_filter f l :
  firstSeen (List.filter f l) = List.filter f (firstSeen l).
Proof.
  induction l as [|x l IH]; [reflexivity|]. simpl.
  destruct (f x) eqn:Ef; simpl; rewrite ?Ef, IH.
  - by rewrite filter_swap.
  - rewrite filter_andb. apply filter_ext.
    intros y. destruct (String.eqb_spec y x) as [->|]; simpl.
    + by rewrite Ef.
    + by rewrite andb_true_r.
Qed.

Lemma elem_of_firstSeen l x : x ∈ firstSeen l <-> x ∈ l.
Proof.
  induction l as [|y l IH]; [reflexivity|]. simpl.
  rewrite !elem_of_cons, elem_of_bfilter, IH.
  destruct (String.eqb_spec x y) as [->|Hne]; simpl; naive_solver.
Qed.

Lemma NoDup_firstSeen l : NoDup (firstSeen l).
Proof.
  induction l as [|y l IH]; simpl; constructor.
  - rewrite elem_of_bfilter, String.eqb_refl. naive_solver.
  - apply NoDup_ListNoDup, List.NoDup_filter, NoDup_ListNoDup, IH.
Qed.

(** The loop of [baseUniq] computes [firstSeen]. *)
Lemma baseUniq_firstSeen result l :
  baseUniq result l =
  (result ++ firstSeen (List.filter (fun y => negb (bool_decide (y ∈ result))) l))%list.
Proof.
  revert result. induction l as [|x l IH]; intros result; simpl.
  - by rewrite app_nil_r.
  - destruct (bool_decide (x ∈ result)) eqn:E; simpl; [apply IH|].
    rewrite IH, <- app_assoc. simpl. do 2 f_equal.
    rewrite <- firstSeen_filter, filter_andb. f_equal.
    apply filter_ext.
    intros y. symmetry. destruct (String.eqb_spec y x) as [->|Hne]; simpl.
    + rewrite bool_decide_true by set_solver. reflexivity.
    + destruct (bool_decide (y ∈ result)) eqn:E'.
      * apply bool_decide_eq_true in E'.
        rewrite bool_decide_true by set_solver. reflexivity.
      * apply bool_decide_eq_false in E'.
        rewrite bool_decide_false by set_solver. reflexivity.
Qed.

Lemma uniq_firstSeen l : uniq l = firstSeen l.
Proof.
  unfold uniq. rewrite baseUniq_firstSeen. simpl. f_equal.
  induction l as [|x l IH]; [reflexivity|]. simpl. by rewrite IH.
Qed.

(** Deduplicating twice is deduplicating once. *)
Lemma firstSeen_idempotent l : firstSeen (firstSeen l) = firstSeen l.
Proof.
  induction l as [|x l IH]; [reflexivity|]. simpl.
  rewrite firstSeen_filter, IH, filter_andb. f_equal.
  apply filter_ext. intros y. apply andb_diag.
Qed.

Lemma compact_app l1 l2 : compact (l1 ++ l2) = (compact l1 ++ compact l2)%list.
Proof. apply List.filter_app. Qed.




End Arrays.

Section Composite.

Context (H : Host).

Lemma getArray_returned st key d :
  returned (getArray H key d) st = getArray_in H (Store H st) key d.
Proof.
  unfold returned, getArray, getArray_in, getArray_with.
  destruct (Str.isEmpty key); simpl.
  - unfold bind, ret. simpl. by rewrite app_nil_r.
  - unfold bind at 1 2. rewrite get_run. unfold bind at 1, lift.
    destruct (split_method (grab H (Store H st) key (VStr "")) ","); reflexivity.
Qed.

Lemma getStrings_returned st key d :
  returned (getStrings H key d) st = getArray_in H (Store H st) key d.
Proof.
  rewrite <- getArray_returned.
  unfold returned, getStrings, bind, ret.
  destruct (getArray H key d st) as [[a|e] st']; simpl; [|reflexivity].
  f_equal. unfold mapToString. simpl. apply map_id.
Qed.


(** At a direct key the accessor resolves a string, the stored one or
    the empty default, and [getArray] returns. *)
Lemma getArray_in_direct S key d :
  directKey key = true -> getArray_in H S key d = Ok (getArray_of H S key d).
Proof.
  intros Hk. unfold getArray_in, getArray_of.
  destruct (Str.isEmpty key); simpl; [reflexivity|].
  rewrite grab_direct by exact Hk. by destruct (S !! key).
Qed.

Lemma getArray_in_present S key d s :
  S !! key = Some s -> getArray_in H S key d = Ok (getArray_of H S key d).
Proof.
  intros Hs. unfold getArray_in, getArray_of.
  destruct (Str.isEmpty key); simpl; [reflexivity|].
  rewrite (grab_present H _ _ _ s) by exact Hs. by rewrite Hs.
Qed.

Lemma getArray_in_Ok S key d out :
  getArray_in H S key d = Ok out -> exists pieces, out = getArray_with H pieces d.
Proof.
  unfold getArray_in. destruct (negb (Str.isEmpty key)).
  - destruct (split_method _ _) as [pieces|e]; [|discriminate].
    intros [= <-]. eauto.
  - intros [= <-]. eauto.
Qed.

Lemma map_trim_VStr l :
  List.map (trim H) (List.map VStr l) = List.map Str.trimWhitespace l.
Proof. rewrite List.map_map. reflexivity. Qed.

Lemma compact_trim_concat d :
  compact (List.map (trim H) (concat d)) =
  compact (List.map Str.trimWhitespace (List.map (toString H) (items d))).
Proof. rewrite List.map_map. destruct d; reflexivity. Qed.



Lemma getArray_with_nonEmpty pieces d x : x ∈ getArray_with H pieces d -> x <> "".
Proof.
  unfold getArray_with. rewrite uniq_firstSeen, elem_of_firstSeen.
  unfold compact. rewrite elem_of_bfilter. intros [_ Hx] ->. discriminate.
Qed.

End Composite.






(** ** Environment predicates *)

Section Predicates.

Context (H : Host).

Lemma tracks_is e : tracks H (is_ H e) (fun S => Ok (is_of H S e)).
Proof.
  unfold is_. eapply tracks_ext.
  - eapply tracks_bind; [apply tracks_get | intros v; apply tracks_ret].
  - reflexivity.
Qed.

Lemma tracks_isLocal :
  tracks H (isLocal H)
         (fun S => Ok (is_of H S (VStr "test") || is_of H S (VStr "development"))).
Proof.
  unfold isLocal. eapply tracks_ext.
  - eapply tracks_bind; [apply tracks_is | intros t].
    apply tracks_if; [apply tracks_ret | apply tracks_is].
  - intros S. simpl. by destruct (is_of H S (VStr "test")).
Qed.

End Predicates.

(** C10. With no [NODE_ENV] in the Store, [is(name)] compares the lower
    case of [undefined], the empty string, with the lower case of
    [name]: [is('')] and [is(undefined)] are true, and [isTest],
    [isDevelopment], [isProduction] and [isLocal] are false. *)
Theorem is_without_NODE_ENV (H : Host) (st : State) :
  once_n st <= 2 ->
  Store H st !! "NODE_ENV" = None ->
  toLower H VUndefined = "" /\
  (forall name, returned (is_ H name) st = Ok (String.eqb "" (toLower H name))) /\
  returned (is_ H (VStr "")) st = Ok true /\
  returned (is_ H VUndefined) st = Ok true /\
  returned (isTest H) st = Ok false /\
  returned (isDevelopment H) st = Ok false /\
  returned (isProduction H) st = Ok false /\
  returned (isLocal H) st = Ok false.
Proof.
  intros Hn Habs.
  assert (His : forall name,
             returned (is_ H name) st = Ok (String.eqb "" (toLower H name))).
  { intros name. rewrite (proj1 (tracks_is H name st Hn)).
    unfold is_of. rewrite !grab_direct by reflexivity. by rewrite Habs. }
  split; [reflexivity|]. split; [exact His|].
  unfold isTest, isDevelopment, isProduction. rewrite !His.
  repeat (split; [reflexivity|]).
  rewrite (proj1 (tracks_isLocal H st Hn)). unfold is_of. rewrite !grab_direct by reflexivity. by rewrite Habs.
Qed.

(** C10 at the example host: a fresh process with an empty environment,
    whose [.env] file does not define [NODE_ENV]. *)
Lemma is_without_NODE_ENV_witness :
  once_n (initial ∅) <= 2 /\
  Store exampleHost (initial ∅) !! "NODE_ENV" = None /\
  returned (is_ exampleHost VUndefined) (initial ∅) = Ok true /\
  returned (isLocal exampleHost) (initial ∅) = Ok false.
Proof.
  assert (Hn : once_n (initial ∅) <= 2) by (simpl; lia).
  assert (Habs : Store exampleHost (initial ∅) !! "NODE_ENV" = None)
    by (vm_compute; reflexivity).
  pose proof (is_without_NODE_ENV exampleHost (initial ∅) Hn Habs) as Hw.
  split; [exact Hn | split; [exact Habs | split; apply Hw]].
Defined.

(** ** The API version *)

Section ApiVersion.

Context (H : Host).

Lemma apiVersion_returned st optns :
  returned (apiVersion H optns) st =
  let options := merge defaultOptions optns in
  match coerce H (gateString H (grab H (Store H st) "API_VERSION" (version options))) with
  | None => Throw (TypeError "Cannot read property 'major' of null")
  | Some parsed => Ok (formatVersion H options parsed)
  end.
Proof.
  unfold returned, apiVersion, bind. rewrite getString_run. cbv zeta.
  destruct (coerce H _) as [parsed|]; [|reflexivity].
  unfold ret, formatVersion.
  destruct (truthy (opt_patch (merge defaultOptions optns))),
           (truthy (opt_minor (merge defaultOptions optns))); reflexivity.
Qed.

Lemma coerceMatch_no_digit s :
  (forall c, c ∈ list_ascii_of_string s -> Str.isDigit c = false) ->
  Semver.coerceMatch false s = None.
Proof.
  induction s as [|c s IH]; intros Hs; [reflexivity|]. simpl.
  rewrite (Hs c) by (simpl; left). simpl. apply IH.
  intros c' Hc'. apply Hs. simpl. by right.
Qed.

(** A string without a digit does not coerce. *)
Lemma coerceString_no_digit s :
  (forall c, c ∈ list_ascii_of_string s -> Str.isDigit c = false) ->
  Semver.coerceString s = None.
Proof. intros Hs. unfold Semver.coerceString. by rewrite coerceMatch_no_digit. Qed.

End ApiVersion.

(** C4. With no [API_VERSION] in the Store, [apiVersion] coerces the
    version of the options (['1.0.0'] by default) and prints it behind
    the prefix (['v'] by default): all three components when [patch] is
    set, else the first two when [minor] is set, else the major alone.
    For the version ['2.3.4'] that is ['v2'], ['v2.3'] with
    [{minor: true}] and ['v2.3.4'] with [{patch: true}]. *)
Theorem apiVersion_granularity (H : Host) (st : State) :
  Store H st !! "API_VERSION" = None ->
  (forall optns parsed,
     let options := merge defaultOptions optns in
     let v := version options in
     coerce H (if truthy v then VStr (mapToString H v) else v) = Some parsed ->
     returned (apiVersion H optns) st =
     Ok (jsToString H (prefix options) +:+
         (if truthy (opt_patch options)
          then Str.join "." [Str.ofN (major parsed); Str.ofN (minor parsed);
                             Str.ofN (patch parsed)]
          else if truthy (opt_minor options)
          then Str.join "." [Str.ofN (major parsed); Str.ofN (minor parsed)]
          else Str.ofN (major parsed)))) /\
  returned (apiVersion H noOptions) st = Ok "v1" /\
  returned (apiVersion H
    (mkOptions (VStr "2.3.4") VUndefined VUndefined VUndefined VUndefined)) st = Ok "v2" /\
  returned (apiVersion H
    (mkOptions (VStr "2.3.4") VUndefined VUndefined (VBool true) VUndefined)) st = Ok "v2.3" /\
  returned (apiVersion H
    (mkOptions (VStr "2.3.4") VUndefined VUndefined VUndefined (VBool true))) st = Ok "v2.3.4" /\
  returned (apiVersion H
    (mkOptions (VStr "2.3.4") VUndefined VUndefined (VBool true) (VBool true))) st = Ok "v2.3.4".
Proof.
  intros Habs. split.
  - intros optns parsed options v Hc. rewrite apiVersion_returned. cbv zeta.
    rewrite !grab_direct by reflexivity. rewrite Habs. fold options. fold v. unfold gateString.
    rewrite Hc. reflexivity.
  - repeat split; rewrite apiVersion_returned; cbv zeta; rewrite grab_direct by reflexivity; rewrite Habs;
      reflexivity.
Qed.

(** C4 at the example host: a fresh process with an empty environment. *)
Lemma apiVersion_granularity_witness :
  Store exampleHost (initial ∅) !! "API_VERSION" = None /\
  returned (apiVersion exampleHost
    (mkOptions (VStr "2.3.4") VUndefined VUndefined (VBool true) VUndefined)) (initial ∅)
  = Ok "v2.3".
Proof.
  assert (Habs : Store exampleHost (initial ∅) !! "API_VERSION" = None)
    by (vm_compute; reflexivity).
  split; [exact Habs|].
  apply (apiVersion_granularity exampleHost (initial ∅) Habs).
Defined.

(** C2, where the code departs from it. A version that does not coerce
    makes [coerce] return [null], and [apiVersion] then reads [.major]
    off [null]: the call raises a [TypeError] instead of returning a
    sentinel, whether the text comes from [API_VERSION] or from the
    [version] option. *)
Theorem apiVersion_raises_on_unparseable (H : Host) (st : State) (s : string) :
  Semver.coerceString s = None ->
  (Store H st !! "API_VERSION" = Some s ->
   forall optns,
     returned (apiVersion H optns) st =
     Throw (TypeError "Cannot read property 'major' of null")) /\
  (Store H st !! "API_VERSION" = None ->
   forall optns, version optns = VStr s ->
     returned (apiVersion H optns) st =
     Throw (TypeError "Cannot read property 'major' of null")).
Proof.
  intros Hs.
  assert (Hc : coerce H (gateString H (VStr s)) = None)
    by (rewrite gateString_VStr; exact Hs).
  split; intros E optns.
  - rewrite apiVersion_returned. cbv zeta. rewrite !grab_direct by reflexivity. rewrite E. by rewrite Hc.
  - intros Hv. rewrite apiVersion_returned. cbv zeta. rewrite !grab_direct by reflexivity. rewrite E.
    unfold merge. rewrite Hv. simpl default_param. simpl version. by rewrite Hc.
Qed.

(** C2 at the example host: [apiVersion({ version: 'latest' })] in a
    fresh process with an empty environment. *)
Lemma apiVersion_raises_on_unparseable_witness :
  Semver.coerceString "latest" = None /\
  Store exampleHost (initial ∅) !! "API_VERSION" = None /\
  returned (apiVersion exampleHost
    (mkOptions (VStr "latest") VUndefined VUndefined VUndefined VUndefined)) (initial ∅)
  = Throw (TypeError "Cannot read property 'major' of null").
Proof.
  assert (Hs : Semver.coerceString "latest" = None) by reflexivity.
  assert (Habs : Store exampleHost (initial ∅) !! "API_VERSION" = None)
    by (vm_compute; reflexivity).
  split; [exact Hs | split; [exact Habs|]].
  exact (proj2 (apiVersion_raises_on_unparseable exampleHost (initial ∅) "latest" Hs)
           Habs (mkOptions (VStr "latest") VUndefined VUndefined VUndefined VUndefined)
           eq_refl).
Defined.

(** ** Locale and country code *)

Section Locale.

Context (H : Host).

Lemma tracks_getLocale :
  tracks H (getLocale H VUndefined) (fun S => Ok (localeOf H S)).
Proof. unfold getLocale. apply tracks_getString. Qed.

(** [getLocale()] always returns a string. *)
Lemma localeOf_string S : exists loc, localeOf H S = VStr loc.
Proof.
  unfold localeOf. rewrite !grab_direct by reflexivity. destruct (S !! "DEFAULT_LOCALE") as [v|].
  - rewrite gateString_VStr. eauto.
  - unfold or_else.
    destruct (truthy (VStr (osLocale H true)));
      [|destruct (truthy (VStr (osLocale H false)))];
      rewrite gateString_VStr; eauto.
Qed.

Lemma tracks_getCountryCode d :
  tracks H (getCountryCode H d)
    (fun S =>
       match localeOf H S with
       | VStr loc =>
           Ok (gateString H (grab H S "DEFAULT_COUNTRY_CODE"
                 (derivedCountryCode loc (default_param d (VStr "TZ")))))
       | _ => Throw (TypeError "split is not a function")
       end).
Proof.
  unfold getCountryCode. eapply tracks_ext.
  - eapply tracks_bind; [apply tracks_getLocale | intros l1].
    eapply tracks_bind; [apply tracks_lift | intros p1].
    eapply tracks_bind.
    + apply tracks_if.
      * eapply tracks_bind; [apply tracks_getLocale | intros l2].
        eapply tracks_bind; [apply tracks_lift | intros p2]. apply tracks_ret.
      * apply tracks_ret.
    + intros c1.
      eapply tracks_bind; [apply tracks_getLocale | intros l3].
      eapply tracks_bind; [apply tracks_lift | intros p3].
      eapply tracks_bind.
      * apply tracks_if.
        -- eapply tracks_bind; [apply tracks_getLocale | intros l4].
           eapply tracks_bind; [apply tracks_lift | intros p4]. apply tracks_ret.
        -- apply tracks_ret.
      * intros c2. apply tracks_getString.
  - intros S. destruct (localeOf_string S) as [loc ->]. simpl.
    unfold derivedCountryCode.
    destruct (1 <? List.length (Str.split "_" loc))%nat,
             (1 <? List.length (Str.split "-" loc))%nat; reflexivity.
Qed.

(** [getCountryCode] never raises. *)
Lemma getCountryCode_total st d :
  once_n st <= 2 -> exists v, returned (getCountryCode H d) st = Ok v.
Proof.
  intros Hn. rewrite (proj1 (tracks_getCountryCode d st Hn)).
  destruct (localeOf_string (Store H st)) as [loc ->]. eauto.
Qed.

Lemma split_last sep s :
  last (Str.split sep s) = VStr (List.last (Str.split sep s) "").
Proof.
  assert (Hl : forall l : list string, l <> [] -> last l = VStr (List.last l "")).
  { intros l. unfold last. induction l as [|x [|y l] IH]; [done| reflexivity |].
    intros _. specialize (IH ltac:(discriminate)).
    change (List.last (x :: y :: l) "") with (List.last (y :: l) "").
    rewrite <- IH. reflexivity. }
  apply Hl. destruct s as [|c s]; simpl; [discriminate|].
  destruct (Ascii.eqb c sep); [discriminate|].
  destruct (Str.split sep s); discriminate.
Qed.

End Locale.

(** C9. [getCountryCode] reads the locale [getLocale()] returns and
    splits it at underscores and, separately, at hyphens: a split in
    more than one part gives its last part, the hyphen split winning
    when both apply; otherwise the default (['TZ'] when none is given)
    stands; and a [DEFAULT_COUNTRY_CODE] in the Store replaces the
    result whatever the locale. So ['en_US'] gives ['US'], ['en-GB']
    gives ['GB'], and an override ['KE'] gives ['KE']. *)
Theorem getCountryCode_from_locale (H : Host) (st : State) (d : option string) :
  once_n st <= 2 ->
  exists loc,
    returned (getLocale H VUndefined) st = Ok (VStr loc) /\
    (let underscore := Str.split "_" loc in
     let hyphen := Str.split "-" loc in
     let derived :=
       if (1 <? List.length hyphen)%nat then List.last hyphen ""
       else if (1 <? List.length underscore)%nat then List.last underscore ""
       else default "TZ" d in
     returned (getCountryCode H (optional d)) st =
     Ok (VStr (default derived (Store H st !! "DEFAULT_COUNTRY_CODE")))) /\
    (Store H st !! "DEFAULT_COUNTRY_CODE" = None -> loc = "en_US" ->
     returned (getCountryCode H (optional d)) st = Ok (VStr "US")) /\
    (Store H st !! "DEFAULT_COUNTRY_CODE" = None -> loc = "en-GB" ->
     returned (getCountryCode H (optional d)) st = Ok (VStr "GB")) /\
    (Store H st !! "DEFAULT_COUNTRY_CODE" = Some "KE" ->
     returned (getCountryCode H (optional d)) st = Ok (VStr "KE")).
Proof.
  intros Hn. destruct (localeOf_string H (Store H st)) as [loc Hloc]. exists loc.
  assert (Hcc : returned (getCountryCode H (optional d)) st =
                Ok (gateString H (grab H (Store H st) "DEFAULT_COUNTRY_CODE"
                      (derivedCountryCode loc (default_param (optional d) (VStr "TZ")))))).
  { rewrite (proj1 (tracks_getCountryCode H (optional d) st Hn)). by rewrite Hloc. }
  split; [|split; [|split; [|split]]].
  - rewrite (proj1 (tracks_getLocale H st Hn)). by rewrite Hloc.
  - cbv zeta. rewrite Hcc. rewrite !grab_direct by reflexivity. unfold derivedCountryCode.
    destruct (Store H st !! "DEFAULT_COUNTRY_CODE") as [o|]; simpl default.
    + by rewrite gateString_VStr.
    + rewrite !split_last.
      destruct (1 <? List.length (Str.split "-" loc))%nat;
        [by rewrite gateString_VStr|].
      destruct (1 <? List.length (Str.split "_" loc))%nat;
        [by rewrite gateString_VStr|].
      destruct d; simpl; by rewrite gateString_VStr.
  - intros E ->. rewrite Hcc. rewrite !grab_direct by reflexivity. rewrite E. reflexivity.
  - intros E ->. rewrite Hcc. rewrite !grab_direct by reflexivity. rewrite E. reflexivity.
  - intros E. rewrite Hcc. rewrite !grab_direct by reflexivity. rewrite E. reflexivity.
Qed.

(** C9 at the example host, whose OS locale is [en_US]. *)
Lemma getCountryCode_from_locale_witness :
  once_n (initial ∅) <= 2 /\
  returned (getLocale exampleHost VUndefined) (initial ∅) = Ok (VStr "en_US") /\
  returned (getCountryCode exampleHost VUndefined) (initial ∅) = Ok (VStr "US").
Proof.
  assert (Hn : once_n (initial ∅) <= 2) by (simpl; lia).
  split; [exact Hn|].
  destruct (getCountryCode_from_locale exampleHost (initial ∅) None Hn)
    as (loc & Hl & _ & Hus & _).
  assert (E : loc = "en_US").
  { assert (Hc : returned (getLocale exampleHost VUndefined) (initial ∅)
                 = Ok (VStr "en_US")) by (vm_compute; reflexivity).
    rewrite Hc in Hl. by injection Hl. }
  split; [by rewrite Hl, E|].
  apply Hus; [vm_compute; reflexivity | exact E].
Defined.

(** ** The initialiser runs once *)

Section Once.

Context (H : Host).

Lemma proceeds_getArray key d : proceeds H (getArray H key d).
Proof. unfold getArray. solve_proceeds. Qed.

Lemma proceeds_getString key d : proceeds H (getString H key d).
Proof. unfold getString. solve_proceeds. Qed.

Lemma proceeds_is e : proceeds H (is_ H e).
Proof. unfold is_. solve_proceeds. Qed.

(** Every call other than [set] and [clear] leaves the state where it
    was or settled. *)
Lemma exec_progress c st :
  once_n st <= 2 ->
  (forall key v, c <> CallSet key v) -> (forall keys, c <> CallClear keys) ->
  progress H st (exec H c st).
Proof.
  intros Hn Hset Hclear.
  destruct c; simpl;
    try (exfalso; by eapply Hset); try (exfalso; by eapply Hclear); revert st Hn;
    match goal with |- forall st, _ -> progress H st (after ?m st) =>
      change (proceeds H m) end.
  - apply proceeds_load.
  - apply proceeds_get.
  - apply proceeds_getArray.
  - unfold getNumbers. apply proceeds_bind; [apply proceeds_getArray | intros ?; solve_proceeds].
  - unfold getNumber. solve_proceeds.
  - apply proceeds_getString.
  - unfold getStrings. apply proceeds_bind; [apply proceeds_getArray | intros ?; solve_proceeds].
  - unfold getStringSet, getStrings.
    apply proceeds_bind; [|intros ?; solve_proceeds].
    apply proceeds_bind; [apply proceeds_getArray | intros ?; solve_proceeds].
  - unfold getBoolean. solve_proceeds.
  - unfold getObject. solve_proceeds.
  - apply proceeds_is.
  - apply proceeds_is.
  - apply proceeds_is.
  - apply proceeds_is.
  - eapply tracks_proceeds, tracks_isLocal.
  - unfold isHeroku. solve_proceeds.
  - unfold apiVersion.
    apply proceeds_bind; [apply proceeds_getString | intros ?; solve_proceeds].
  - unfold getLocale. apply proceeds_getString.
  - eapply tracks_proceeds, tracks_getCountryCode.
Qed.

Lemma exec_set_clear c st :
  (exists key v, c = CallSet key v) \/ (exists keys, c = CallClear keys) ->
  once_n (exec H c st) = once_n st /\ once_result (exec H c st) = once_result st /\
  reads (exec H c st) = reads st.
Proof. intros [(key & v & ->) | (keys & ->)]; by repeat split. Qed.

Lemma exec_cases c :
  ((exists key v, c = CallSet key v) \/ (exists keys, c = CallClear keys)) \/
  ((forall key v, c <> CallSet key v) /\ (forall keys, c <> CallClear keys)).
Proof. destruct c; try (right; split; congruence); left; eauto. Qed.

Lemma exec_keeps c st : once_n st <= 1 -> keeps st (exec H c st).
Proof.
  intros Hn. destruct (exec_cases c) as [Hsc | [Hs Hc]].
  - destruct (exec_set_clear c st Hsc) as (E1 & E2 & E3).
    unfold keeps. rewrite E1, E2, E3. by repeat split.
  - destruct (exec_progress c st ltac:(lia) Hs Hc) as [-> | (Hn' & _ & Hr & Hl)].
    + by repeat split.
    + unfold after in Hr, Hl. rewrite load_warm in Hr, Hl by exact Hn.
      by repeat split.
Qed.

Lemma run_keeps calls st : once_n st <= 1 -> keeps st (run H calls st).
Proof.
  revert st. induction calls as [|c calls IH]; intros st Hn; simpl.
  - by repeat split.
  - destruct (exec_keeps c st Hn) as (Hn' & Hr & Hl).
    destruct (IH (exec H c st) Hn') as (Hn'' & Hr' & Hl').
    repeat split; [exact Hn'' | congruence | congruence].
Qed.

Lemma load_inv st :
  once_inv st ->
  once_n (after (load H) st) <= 1 /\ is_Some (once_result (after (load H) st)) /\
  List.length (reads (after (load H) st)) = 1%nat /\
  returned (load H) st = Ok (once_result (after (load H) st)).
Proof.
  intros [(Hn & Hr & Hl) | (Hn & Hr & Hl)].
  - destruct (load_cold H st Hn) as (r & st' & E & Hn' & Hr' & p & Hl').
    unfold after, returned. rewrite E. simpl. rewrite Hr', Hl', Hl.
    repeat split; [lia | eauto].
  - unfold after, returned. rewrite load_warm by exact Hn. simpl.
    repeat split; [lia | exact Hr | exact Hl].
Qed.

Lemma exec_inv c st : once_inv st -> once_inv (exec H c st).
Proof.
  intros Hi. destruct (exec_cases c) as [Hsc | [Hs Hc]].
  - destruct (exec_set_clear c st Hsc) as (E1 & E2 & E3).
    unfold once_inv. by rewrite E1, E2, E3.
  - assert (Hn : once_n st <= 2) by (destruct Hi as [(-> & _)|(? & _)]; lia).
    destruct (exec_progress c st Hn Hs Hc) as [-> | (Hn' & _ & Hr & Hl)];
      [exact Hi|].
    destruct (load_inv st Hi) as (_ & Hr' & Hl' & _).
    right. rewrite Hr, Hl. by repeat split.
Qed.

Lemma run_inv calls st : once_inv st -> once_inv (run H calls st).
Proof.
  revert st. induction calls as [|c calls IH]; intros st Hi; simpl;
    [exact Hi | apply IH, exec_inv, Hi].
Qed.

Lemma once_inv_initial env0 : once_inv (initial env0).
Proof. left. by repeat split. Qed.

Lemma once_inv_reads st : once_inv st -> (List.length (reads st) <= 1)%nat.
Proof. intros [(_ & _ & ->) | (_ & _ & ->)]; simpl; lia. Qed.

End Once.

(** C5. In a process, whatever calls are made before ([pre]) and
    between ([mid]) two calls of [load]: the log never holds more than
    one file read; the later call reads nothing, leaves the environment
    and the memo as they are and returns what the earlier call
    returned, the result of the one run of the loader; and calling
    [load] twice in a row is calling it once. *)
Theorem load_runs_once (H : Host) (env0 : gmap string string) (pre mid : list call) :
  let s0 := run H pre (initial env0) in
  let s1 := after (load H) s0 in
  let s2 := run H mid s1 in
  let s3 := after (load H) s2 in
  ((List.length (reads s0) <= 1)%nat /\ List.length (reads s1) = 1%nat /\
   reads s2 = reads s1 /\ reads s3 = reads s1) /\
  ((exists r, returned (load H) s0 = Ok (Some r)) /\
   returned (load H) s2 = returned (load H) s0) /\
  (env s3 = env s2 /\ once_result s3 = once_result s2) /\
  (returned (let* _ := load H in load H) s0 = returned (load H) s0 /\
   env (after (let* _ := load H in load H) s0) = env s1 /\
   reads (after (let* _ := load H in load H) s0) = reads s1 /\
   once_result (after (let* _ := load H in load H) s0) = once_result s1).
Proof.
  intros s0 s1 s2 s3.
  assert (Hi0 : once_inv s0) by apply run_inv, once_inv_initial.
  destruct (load_inv H s0 Hi0) as (Hn1 & [r Hr1] & Hl1 & Hret0).
  fold s1 in Hn1, Hr1, Hl1, Hret0.
  destruct (run_keeps H mid s1 Hn1) as (Hn2 & Hr2 & Hl2). fold s2 in Hn2, Hr2, Hl2.
  assert (E3 : load H s2 = (Ok (once_result s2), tick s2)) by by apply load_warm.
  assert (E1 : load H s1 = (Ok (once_result s1), tick s1)) by by apply load_warm.
  assert (Hs3 : s3 = tick s2) by (unfold s3, after; by rewrite E3).
  split; [|split; [|split]].
  - repeat split; [by apply once_inv_reads | exact Hl1 | exact Hl2 |].
    rewrite Hs3. exact Hl2.
  - split.
    + exists r. by rewrite Hret0, Hr1.
    + unfold returned at 1. rewrite E3, Hret0. simpl. by rewrite Hr2.
  - by rewrite Hs3.
  - assert (Hb : (let* _ := load H in load H) s0 = (Ok (once_result s1), tick s1)).
    { unfold bind. unfold returned in Hret0. unfold s1, after in *.
      destruct (load H s0) as [[r0|e] st']; simpl in *; [exact E1 | discriminate]. }
    unfold returned at 1, after. rewrite Hb. simpl. by rewrite Hret0.
Qed.

(** * Further properties of the module *)

(** ** The first read, and what the accessors do to the Store *)

Section StoreAccess.

Context (H : Host).

Lemma load_cold_exact st :
  once_n st = 2 ->
  load H st =
  (Ok (Some (dotenvOutput H (envPath H (env st)))),
   mkState (env st ∪ fileVars H (envPath H (env st))) 1
           (Some (dotenvOutput H (envPath H (env st))))
           (reads st ++ [envPath H (env st)])%list).
Proof.
  intros Hn. unfold load. rewrite Hn.
  change (2 - 1) with 1. change (0 <? 1) with true. cbv iota.
  unfold load_func, bind, processEnv, loadEnv, dotenvOutput, fileVars, envPath.
  simpl. destruct (readFileSync H _); simpl; [reflexivity|].
  by rewrite (right_id_L ∅ (∪)).
Qed.

Lemma Store_warm st : once_n st <= 1 -> Store H st = env st.
Proof. intros Hn. unfold Store, after. by rewrite load_warm. Qed.

Lemma Store_cold st :
  once_n st = 2 -> Store H st = env st ∪ fileVars H (envPath H (env st)).
Proof. intros Hn. unfold Store, after. by rewrite load_cold_exact. Qed.

Lemma Store_lookup_env st k v :
  once_n st <= 2 -> env st !! k = Some v -> Store H st !! k = Some v.
Proof.
  intros Hn Hk. destruct (Z.eq_dec (once_n st) 2) as [E|E].
  - rewrite Store_cold by exact E. by apply lookup_union_Some_l.
  - rewrite Store_warm by lia. exact Hk.
Qed.

Lemma set_run st key v :
  set H key v st =
  (Ok v, mkState (define H (env st) key v) (once_n st) (once_result st) (reads st)).
Proof. reflexivity. Qed.

Lemma clear_run st keys :
  clear keys st =
  (Ok tt, mkState (List.fold_left (fun m key => delete key m) keys (env st))
                  (once_n st) (once_result st) (reads st)).
Proof. reflexivity. Qed.

Lemma fold_delete_lookup keys (m : gmap string string) k :
  List.fold_left (fun m key => delete key m) keys m !! k =
  if bool_decide (k ∈ keys) then None else m !! k.
Proof.
  revert m. induction keys as [|x keys IH]; intros m; simpl; [reflexivity|].
  rewrite IH. destruct (decide (k ∈ keys)) as [Hin|Hin].
  - rewrite !bool_decide_true by set_solver. reflexivity.
  - rewrite (bool_decide_false (k ∈ keys)) by exact Hin.
    destruct (decide (k = x)) as [->|Hne].
    + rewrite bool_decide_true by set_solver. apply lookup_delete_eq.
    + rewrite bool_decide_false by set_solver. by apply lookup_delete_ne.
Qed.

End StoreAccess.

(** X1. The first [load] of a process reads one file, [.env] under
    [BASE_PATH] (under the working directory when [BASE_PATH] is absent
    or empty), returns what [dotenv.config] made of it, and adds to the
    environment the variables of the file that the environment lacks:
    an entry that exists keeps its value. An unreadable file changes
    nothing. *)
Theorem load_first_call (H : Host) (env0 : gmap string string) :
  let path := envPath H env0 in
  let st' := after (load H) (initial env0) in
  reads st' = [path] /\
  returned (load H) (initial env0) = Ok (Some (dotenvOutput H path)) /\
  (forall k v, env0 !! k = Some v -> env st' !! k = Some v) /\
  (forall k, env0 !! k = None -> env st' !! k = fileVars H path !! k) /\
  (readFileSync H path = None -> env st' = env0) /\
  (env0 !! "BASE_PATH" = None \/ env0 !! "BASE_PATH" = Some "" ->
   path = resolve H (cwd H) ".env") /\
  (forall p, p <> "" -> env0 !! "BASE_PATH" = Some p -> path = resolve H p ".env").
Proof.
  intros path st'.
  assert (E : load H (initial env0) =
              (Ok (Some (dotenvOutput H path)),
               mkState (env0 ∪ fileVars H path) 1 (Some (dotenvOutput H path)) [path]))
    by (by rewrite load_cold_exact).
  unfold st', after, returned. rewrite E. simpl.
  split; [reflexivity|]. split; [reflexivity|].
  split; [intros k v Hk; by apply lookup_union_Some_l|].
  split; [intros k Hk; by apply lookup_union_r|].
  split.
  { intros Hr. unfold fileVars. rewrite Hr. by rewrite (right_id_L ∅ (∪)). }
  split.
  - unfold path, envPath. intros [-> | ->]; reflexivity.
  - intros p Hp Hb. unfold path, envPath. rewrite Hb.
    destruct p; [done | reflexivity].
Qed.

(** X2. A read never hides or changes an entry of the environment: in
    any state of a process, a variable the environment holds is in the
    Store with the same value. *)
Theorem Store_keeps_environment (H : Host) (st : State) (k v : string) :
  once_n st <= 2 ->
  env st !! k = Some v ->
  Store H st !! k = Some v /\ returned (get H k VUndefined) st = Ok (VStr v).
Proof.
  intros Hn Hk. pose proof (Store_lookup_env H st k v Hn Hk) as Hs.
  split; [exact Hs|]. rewrite get_returned. by rewrite (grab_present H _ _ _ v).
Qed.

(** X2 at the example host: the process starts with [CATEGORIES=x],
    which the file's [CATEGORIES] does not replace. *)
Lemma Store_keeps_environment_witness :
  once_n (initial {[ "CATEGORIES" := "x" ]}) <= 2 /\
  returned (get exampleHost "CATEGORIES" VUndefined) (initial {[ "CATEGORIES" := "x" ]})
  = Ok (VStr "x").
Proof.
  assert (Hn : once_n (initial {[ "CATEGORIES" := "x" ]}) <= 2) by (simpl; lia).
  split; [exact Hn|].
  apply (Store_keeps_environment exampleHost (initial {[ "CATEGORIES" := "x" ]})
           "CATEGORIES" "x" Hn).
  vm_compute. reflexivity.
Defined.

(** X3. [set] then [get]: [set(key, v)] returns [v] at every key, and
    at a key that [set] assigns directly a following [get(key, d)]
    returns the text of [v] for every default, also when the file has
    not been read yet and defines [key] itself. *)
Theorem set_then_get (H : Host) (st : State) (key : string) (v d : value) :
  once_n st <= 2 ->
  settableKey key = true ->
  returned (set H key v) st = Ok v /\
  returned (let* _ := set H key v in get H key d) st = Ok (VStr (jsToString H v)).
Proof.
  intros Hn Hk. split; [reflexivity|].
  unfold returned, bind. rewrite set_run, define_settable by exact Hk.
  fold (returned (get H key d)
    (mkState (<[key := jsToString H v]> (env st)) (once_n st) (once_result st) (reads st))).
  rewrite get_returned.
  rewrite (grab_present H _ _ _ (jsToString H v)); [reflexivity|].
  apply Store_lookup_env; [exact Hn|]. simpl. apply lookup_insert_eq.
Qed.

(** X3 at the example host: [set('CATEGORIES', 'z')] before the first
    read wins over the file. *)
Lemma set_then_get_witness :
  once_n (initial ∅) <= 2 /\
  settableKey "CATEGORIES" = true /\
  returned (let* _ := set exampleHost "CATEGORIES" (VStr "z") in
            get exampleHost "CATEGORIES" VUndefined) (initial ∅) = Ok (VStr "z").
Proof.
  assert (Hn : once_n (initial ∅) <= 2) by (simpl; lia).
  split; [exact Hn|]. split; [reflexivity|].
  apply (set_then_get exampleHost (initial ∅) "CATEGORIES" (VStr "z") VUndefined Hn eq_refl).
Defined.

(** X4. Once the file has been read, [set(key, v)] at a key that [set]
    assigns directly changes what [get] returns at [key] only: at any
    other direct key, [get] returns what it returned before. *)
Theorem set_leaves_other_keys (H : Host) (st : State) (key key' : string) (v d : value) :
  once_n st <= 1 ->
  settableKey key = true ->
  directKey key' = true ->
  key <> key' ->
  returned (let* _ := set H key v in get H key' d) st = returned (get H key' d) st.
Proof.
  intros Hn Hk Hk' Hne. unfold returned at 1, bind.
  rewrite set_run, define_settable by exact Hk.
  fold (returned (get H key' d)
    (mkState (<[key := jsToString H v]> (env st)) (once_n st) (once_result st) (reads st))).
  rewrite !get_returned, !Store_warm by exact Hn. rewrite !grab_direct by exact Hk'.
  simpl. by rewrite lookup_insert_ne.
Qed.

(** X4 at the example host, after a first read. *)
Lemma set_leaves_other_keys_witness :
  let st := after (load exampleHost) (initial ∅) in
  returned (let* _ := set exampleHost "OTHER" (VStr "z") in
            get exampleHost "CATEGORIES" VUndefined) st
  = returned (get exampleHost "CATEGORIES" VUndefined) st.
Proof.
  intros st.
  apply (set_leaves_other_keys exampleHost st "OTHER" "CATEGORIES" (VStr "z") VUndefined).
  - vm_compute. discriminate.
  - reflexivity.
  - reflexivity.
  - discriminate.
Defined.

(** X5. [clear(...keys)] deletes exactly the given keys: afterwards a
    key of the list is absent from the environment and any other key
    has the value it had; keys that are not set make it a no-op; and
    [clear] touches neither the memo of [load] nor the file. *)
Theorem clear_removes_exactly_keys (st : State) (keys : list string) :
  let st' := after (clear keys) st in
  (forall k, env st' !! k = if bool_decide (k ∈ keys) then None else env st !! k) /\
  ((forall k, k ∈ keys -> env st !! k = None) -> env st' = env st) /\
  once_n st' = once_n st /\ once_result st' = once_result st /\ reads st' = reads st /\
  returned (clear keys) st = Ok tt.
Proof.
  intros st'. unfold st', after, returned. rewrite clear_run. simpl.
  split; [intros k; apply fold_delete_lookup|].
  split; [|by repeat split].
  intros Habs. apply map_eq. intros k. rewrite fold_delete_lookup.
  destruct (decide (k ∈ keys)) as [Hin|Hin].
  - rewrite bool_decide_true by exact Hin. symmetry. by apply Habs.
  - by rewrite bool_decide_false.
Qed.

(** X6. Once the file has been read, [get] at a direct key after
    [clear(...keys)] returns the default at a cleared key and what it
    returned before at any other key. *)
Theorem clear_then_get (H : Host) (st : State) (keys : list string) (k : string) (d : value) :
  once_n st <= 1 ->
  directKey k = true ->
  returned (let* _ := clear keys in get H k d) st =
  if bool_decide (k ∈ keys) then Ok d else returned (get H k d) st.
Proof.
  intros Hn Hk. unfold returned at 1, bind. rewrite clear_run.
  fold (returned (get H k d)
    (mkState (List.fold_left (fun m key => delete key m) keys (env st))
             (once_n st) (once_result st) (reads st))).
  rewrite !get_returned, !Store_warm by exact Hn. rewrite !grab_direct by exact Hk.
  simpl. rewrite fold_delete_lookup. by destruct (bool_decide (k ∈ keys)).
Qed.

(** X6 at the example host, after a first read. *)
Lemma clear_then_get_witness :
  let st := after (load exampleHost) (initial ∅) in
  once_n st <= 1 /\
  returned (get exampleHost "CATEGORIES" (VStr "none")) st = Ok (VStr "a, a, ,b") /\
  returned (let* _ := clear ["CATEGORIES"] in
            get exampleHost "CATEGORIES" (VStr "none")) st = Ok (VStr "none").
Proof.
  intros st.
  assert (Hn : once_n st <= 1) by (vm_compute; discriminate).
  split; [exact Hn|]. split; [vm_compute; reflexivity|].
  rewrite (clear_then_get exampleHost st ["CATEGORIES"] "CATEGORIES" (VStr "none") Hn eq_refl).
  reflexivity.
Defined.

(** X7. [clear] before the first read does not keep a variable out: in
    a fresh process, a cleared key that the file defines is read back
    from the file by the next [get]. *)
Theorem clear_before_first_read (H : Host) (env0 : gmap string string)
  (keys : list string) (k v : string) (d : value) :
  k ∈ keys ->
  fileVars H (envPath H (env (after (clear keys) (initial env0)))) !! k = Some v ->
  returned (let* _ := clear keys in get H k d) (initial env0) = Ok (VStr v).
Proof.
  intros Hin Hfile. unfold returned, bind. rewrite clear_run.
  unfold after in Hfile. rewrite clear_run in Hfile. simpl in Hfile. simpl.
  fold (returned (get H k d)
    (mkState (List.fold_left (fun m key => delete key m) keys env0) 2 None [])).
  rewrite get_returned, Store_cold by reflexivity.
  rewrite (grab_present H _ _ _ v); [reflexivity|]. simpl.
  rewrite lookup_union_r, Hfile; [reflexivity|].
  rewrite fold_delete_lookup. by rewrite bool_decide_true.
Qed.

(** X7 at the example host: the process starts with [CATEGORIES=x] and
    clears it before reading. *)
Lemma clear_before_first_read_witness :
  returned (let* _ := clear ["CATEGORIES"] in
            get exampleHost "CATEGORIES" VUndefined) (initial {[ "CATEGORIES" := "x" ]})
  = Ok (VStr "a, a, ,b").
Proof.
  apply (clear_before_first_read exampleHost {[ "CATEGORIES" := "x" ]}
           ["CATEGORIES"] "CATEGORIES" "a, a, ,b" VUndefined).
  - set_solver.
  - vm_compute. reflexivity.
Defined.

(** ** More on [getArray] and its callers *)

Section ArrayResults.

Context (H : Host).

Lemma trimEnd_idempotent s : Str.trimEnd (Str.trimEnd s) = Str.trimEnd s.
Proof.
  induction s as [|c s IH]; [reflexivity|]. simpl.
  destruct (Str.isWhitespace c && Str.isEmpty (Str.trimEnd s)) eqn:E; [reflexivity|].
  simpl. by rewrite IH, E.
Qed.

Lemma trimStart_cases s :
  Str.trimStart s = "" \/
  exists c r, Str.trimStart s = String c r /\ Str.isWhitespace c = false.
Proof.
  induction s as [|c s IH]; [by left|]. simpl.
  destruct (Str.isWhitespace c) eqn:E; [exact IH | right; eauto].
Qed.

Lemma trimWhitespace_idempotent s :
  Str.trimWhitespace (Str.trimWhitespace s) = Str.trimWhitespace s.
Proof.
  unfold Str.trimWhitespace.
  destruct (trimStart_cases s) as [-> | (c & r & -> & Hc)]; [reflexivity|].
  simpl. rewrite Hc. simpl. rewrite Hc. simpl. rewrite Hc. simpl.
  by rewrite trimEnd_idempotent.
Qed.

Lemma baseUniq_app result l1 l2 :
  baseUniq result (l1 ++ l2) = baseUniq (baseUniq result l1) l2.
Proof.
  revert result. induction l1 as [|x l1 IH]; intros result; simpl; [reflexivity|].
  destruct (bool_decide (x ∈ result)); apply IH.
Qed.

Lemma baseUniq_absorb result l :
  (forall x, x ∈ l -> x ∈ result) -> baseUniq result l = result.
Proof.
  induction l as [|x l IH]; intros Hl; simpl; [reflexivity|].
  rewrite bool_decide_true by (apply Hl; set_solver).
  apply IH. intros y Hy. apply Hl. set_solver.
Qed.

Lemma firstSeen_NoDup l : NoDup l -> firstSeen l = l.
Proof.
  induction 1 as [|x l Hx Hl IH]; simpl; [reflexivity|]. rewrite IH. f_equal.
  rewrite <- (filter_ext_in (fun _ => true)).
  - clear. induction l as [|y l IH]; simpl; by rewrite ?IH.
  - intros y Hy. apply list_elem_of_In in Hy.
    destruct (String.eqb_spec y x) as [->|]; [done | reflexivity].
Qed.

Lemma elem_of_getArray_with pieces d x :
  x ∈ getArray_with H pieces d -> x <> "" /\ Str.trimWhitespace x = x.
Proof.
  intros Hx. split; [by eapply getArray_with_nonEmpty|].
  unfold getArray_with in Hx. rewrite uniq_firstSeen, elem_of_firstSeen in Hx.
  unfold compact in Hx. apply elem_of_bfilter in Hx as [Hx _].
  apply list_elem_of_In, in_map_iff in Hx as (v & <- & _).
  apply trimWhitespace_idempotent.
Qed.

Lemma NoDup_getArray_with pieces d : NoDup (getArray_with H pieces d).
Proof. unfold getArray_with. rewrite uniq_firstSeen. apply NoDup_firstSeen. Qed.

Lemma getArray_with_idempotent pieces d :
  getArray_with H pieces (VArr (List.map VStr (getArray_with H pieces d))) =
  getArray_with H pieces d.
Proof.
  set (out := getArray_with H pieces d).
  assert (Hout : forall x, x ∈ out -> x <> "" /\ Str.trimWhitespace x = x)
    by (intros x; apply elem_of_getArray_with).
  assert (Hnd : NoDup out) by apply NoDup_getArray_with.
  unfold getArray_with at 1. simpl concat.
  rewrite List.map_app, map_trim_VStr, compact_app.
  assert (E1 : compact (List.map Str.trimWhitespace out) = out).
  { clear Hnd. induction out as [|x out IH]; [reflexivity|]. simpl.
    destruct (Hout x ltac:(set_solver)) as [Hne ->].
    destruct x; [done|]. simpl. f_equal. apply IH.
    intros y Hy. apply Hout. set_solver. }
  rewrite E1. unfold uniq. rewrite baseUniq_app.
  fold (uniq out). rewrite uniq_firstSeen, (firstSeen_NoDup _ Hnd).
  apply baseUniq_absorb. intros x Hx.
  unfold out, getArray_with. rewrite uniq_firstSeen, elem_of_firstSeen,
    List.map_app, compact_app. set_solver.
Qed.

(** The pieces [getArray] splits do not depend on the default. *)
Lemma getArray_in_default S key d out d' :
  getArray_in H S key d = Ok out ->
  exists pieces, out = getArray_with H pieces d /\
                 getArray_in H S key d' = Ok (getArray_with H pieces d').
Proof.
  unfold getArray_in. destruct (negb (Str.isEmpty key)).
  - destruct (split_method _ _) as [pieces|e]; [|discriminate].
    intros [= <-]. eauto.
  - intros [= <-]. eauto.
Qed.

Lemma getArray_in_total S key d :
  directKey key = true \/ is_Some (S !! key) ->
  exists out, getArray_in H S key d = Ok out.
Proof.
  intros [Hd | [s Hs]].
  - rewrite getArray_in_direct by exact Hd. eauto.
  - rewrite (getArray_in_present H _ _ _ s) by exact Hs. eauto.
Qed.

Lemma getArray_empty_key_run st d :
  getArray H "" d st =
  (Ok (firstSeen (List.filter nonEmpty
         (List.map Str.trimWhitespace (List.map (toString H) (items d))))), st).
Proof.
  unfold getArray, bind, ret. simpl. f_equal. f_equal.
  rewrite uniq_firstSeen, compact_trim_concat. reflexivity.
Qed.

End ArrayResults.

(** X8. [getArray] is idempotent: whenever it returns, called again
    with its own result as the default it returns that result; and it
    returns at every direct key and at every key the Store holds. *)
Theorem getArray_idempotent (H : Host) (st : State) (key : string) (d : value) :
  (forall out, returned (getArray H key d) st = Ok out ->
     returned (getArray H key (VArr (List.map VStr out))) st = Ok out) /\
  (directKey key = true \/ is_Some (Store H st !! key) ->
   exists out,
     returned (getArray H key d) st = Ok out /\
     returned (getArray H key (VArr (List.map VStr out))) st = Ok out).
Proof.
  assert (Hidem : forall out, returned (getArray H key d) st = Ok out ->
            returned (getArray H key (VArr (List.map VStr out))) st = Ok out).
  { intros out. rewrite !getArray_returned. intros Hout.
    destruct (getArray_in_default H _ _ _ _ (VArr (List.map VStr out)) Hout)
      as (pieces & -> & ->).
    by rewrite getArray_with_idempotent. }
  split; [exact Hidem|].
  intros Hk. destruct (getArray_in_total H (Store H st) key d Hk) as [out Hout].
  rewrite <- getArray_returned in Hout. eauto.
Qed.

(** X9. Whatever the key and the default, the strings [getArray]
    returns are pairwise distinct, non-empty and free of leading and
    trailing whitespace; and it returns at every direct key and at every
    key the Store holds. *)
Theorem getArray_result_canonical (H : Host) (st : State) (key : string) (d : value) :
  (forall out, returned (getArray H key d) st = Ok out ->
     NoDup out /\
     (forall x, x ∈ out -> x <> "" /\ Str.trimWhitespace x = x)) /\
  (directKey key = true \/ is_Some (Store H st !! key) ->
   exists out, returned (getArray H key d) st = Ok out).
Proof.
  split.
  - intros out. rewrite getArray_returned. intros [pieces ->]%getArray_in_Ok.
    split; [apply NoDup_getArray_with|].
    intros x. apply elem_of_getArray_with.
  - intros Hk. rewrite getArray_returned. by apply getArray_in_total.
Qed.

(** X10. With the empty key [getArray] does not consult the Store:
    the result comes from the default alone, the state is left as it
    was and, in a fresh process, the file is not read. *)
Theorem getArray_empty_key (H : Host) (st : State) (d : value) :
  returned (getArray H "" d) st =
  Ok (firstSeen (List.filter nonEmpty
        (List.map Str.trimWhitespace (List.map (toString H) (items d))))) /\
  after (getArray H "" d) st = st /\
  (forall env0, reads (after (getArray H "" d) (initial env0)) = []).
Proof.
  unfold returned, after.
  split; [by rewrite getArray_empty_key_run|].
  split; [by rewrite getArray_empty_key_run|].
  intros env0. by rewrite getArray_empty_key_run.
Qed.

(** X11. [getStrings] returns what [getArray] returns: on the strings
    of [getArray], [mapToString] changes nothing. *)
Theorem getStrings_is_getArray (H : Host) (st : State) (key : string) (d : value) :
  returned (getStrings H key d) st = returned (getArray H key d) st.
Proof. by rewrite getStrings_returned, getArray_returned. Qed.

(** ** Objects, predicates, locale and API version *)

Section Derived.

Context (H : Host).

Lemma getObject_returned st key d :
  returned (getObject H key d) st =
  Ok (let v := grab H (Store H st) key (default_param d (VObj [])) in
      if truthy v then autoParse H v else v).
Proof. unfold returned, getObject, bind, ret. by rewrite get_run. Qed.

Lemma isHeroku_returned st :
  returned (isHeroku H) st =
  Ok (String.eqb (toLower H (grab H (Store H st) "RUNTIME_ENV" VUndefined)) "heroku").
Proof. unfold returned, isHeroku, bind, ret. by rewrite get_run. Qed.

Lemma is_returned st e :
  returned (is_ H e) st = Ok (is_of H (Store H st) e).
Proof. unfold returned, is_, bind, ret. by rewrite get_run. Qed.

Lemma lowerChar_idempotent c : Str.lowerChar (Str.lowerChar c) = Str.lowerChar c.
Proof. destruct c as [[] [] [] [] [] [] [] []]; reflexivity. Qed.

Lemma toLowerCase_idempotent s :
  Str.toLowerCase (Str.toLowerCase s) = Str.toLowerCase s.
Proof.
  induction s as [|c s IH]; [reflexivity|]. simpl.
  by rewrite lowerChar_idempotent, IH.
Qed.

Lemma getLocale_returned st d :
  returned (getLocale H d) st =
  Ok (gateString H
        (grab H (Store H st) "DEFAULT_LOCALE"
           (or_else (VStr (osLocale H true))
              (or_else (VStr (osLocale H false)) (default_param d (VStr "sw")))))).
Proof. unfold getLocale. apply getString_returned. Qed.

End Derived.

(** X12. [getObject] parses a truthy resolved value and returns a falsy
    one as it is. So a stored non-empty string is parsed whatever the
    default, a stored empty string comes back as the empty string and
    not as an object, and at a direct key with neither variable nor
    default the result is [autoParse] of the empty object, which the
    gate lets through. *)
Theorem getObject_gate (H : Host) (st : State) (key : string) (d : value) :
  (exists v,
     returned (get H key (default_param d (VObj []))) st = Ok v /\
     returned (getObject H key d) st = Ok (if truthy v then autoParse H v else v)) /\
  (forall s, s <> "" -> Store H st !! key = Some s ->
     returned (getObject H key d) st = Ok (autoParse H (VStr s))) /\
  (Store H st !! key = Some "" -> returned (getObject H key d) st = Ok (VStr "")) /\
  (directKey key = true -> Store H st !! key = None ->
     returned (getObject H key VUndefined) st = Ok (autoParse H (VObj [])) /\
     returned (getObject H key d) st =
     Ok (let v := default_param d (VObj []) in if truthy v then autoParse H v else v)).
Proof.
  split; [|split; [|split]].
  - eexists. rewrite get_returned, getObject_returned. split; reflexivity.
  - intros s Hs E. rewrite getObject_returned, (grab_present H _ _ _ s) by exact E.
    destruct s; [done | reflexivity].
  - intros E. rewrite getObject_returned, (grab_present H _ _ _ "") by exact E.
    reflexivity.
  - intros Hk E. rewrite !getObject_returned, !grab_direct by exact Hk.
    rewrite E. by split.
Qed.

(** X13. [isHeroku] is true exactly when [RUNTIME_ENV] is set to a
    value whose lower case is [heroku]; without [RUNTIME_ENV] it is
    false. *)
Theorem isHeroku_iff (H : Host) (st : State) :
  exists b,
    returned (isHeroku H) st = Ok b /\
    (b = true <->
     exists v, Store H st !! "RUNTIME_ENV" = Some v /\ Str.toLowerCase v = "heroku").
Proof.
  eexists. split; [apply isHeroku_returned|].
  rewrite grab_direct by reflexivity. destruct (Store H st !! "RUNTIME_ENV") as [v|] eqn:E.
  - unfold toLower. simpl. rewrite String.eqb_eq. split.
    + intros Hv. eauto.
    + by intros (v' & [= <-] & Hv).
  - simpl. split; [discriminate | by intros (v' & [=] & _)].
Qed.

(** X14. [is] compares without regard to case on both sides: it
    answers the same for a name and for its lower case, and when
    [NODE_ENV] is set to [v] it is true exactly when [v] and the name
    have the same lower case. *)
Theorem is_case_insensitive (H : Host) (st : State) (name : string) :
  returned (is_ H (VStr (Str.toLowerCase name))) st = returned (is_ H (VStr name)) st /\
  (forall v, Store H st !! "NODE_ENV" = Some v ->
     returned (is_ H (VStr name)) st =
     Ok (String.eqb (Str.toLowerCase v) (Str.toLowerCase name)) /\
     returned (is_ H (VStr (Str.toLowerCase v))) st = Ok true).
Proof.
  split.
  - rewrite !is_returned. unfold is_of, toLower. simpl.
    by rewrite toLowerCase_idempotent.
  - intros v E. rewrite !is_returned. unfold is_of, toLower.
    rewrite (grab_present H _ _ _ v) by exact E. simpl.
    split; [reflexivity|]. by rewrite toLowerCase_idempotent, String.eqb_refl.
Qed.

(** X15. Whatever [NODE_ENV] holds, at most one of [isTest],
    [isDevelopment] and [isProduction] is true, [isLocal] is the
    disjunction of the first two, and so [isLocal] and [isProduction]
    are never both true. *)
Theorem environment_predicates_exclusive (H : Host) (st : State) :
  once_n st <= 2 ->
  exists t dv p,
    returned (isTest H) st = Ok t /\
    returned (isDevelopment H) st = Ok dv /\
    returned (isProduction H) st = Ok p /\
    returned (isLocal H) st = Ok (t || dv) /\
    t && dv = false /\ t && p = false /\ dv && p = false /\ (t || dv) && p = false.
Proof.
  intros Hn.
  exists (is_of H (Store H st) (VStr "test")),
         (is_of H (Store H st) (VStr "development")),
         (is_of H (Store H st) (VStr "production")).
  unfold isTest, isDevelopment, isProduction. rewrite !is_returned.
  rewrite (proj1 (tracks_isLocal H st Hn)).
  repeat (split; [reflexivity|]).
  unfold is_of.
  change (toLower H (VStr "test")) with "test".
  change (toLower H (VStr "development")) with "development".
  change (toLower H (VStr "production")) with "production".
  generalize (toLower H (grab H (Store H st) "NODE_ENV" VUndefined)). intros x.
  destruct (String.eqb_spec x "test") as [->|]; [by repeat split|].
  destruct (String.eqb_spec x "development") as [->|]; [by repeat split|].
  by repeat split.
Qed.

(** X15 at the example host, with [NODE_ENV=Development]. *)
Lemma environment_predicates_exclusive_witness :
  once_n (initial {[ "NODE_ENV" := "Development" ]}) <= 2 /\
  exists t dv p,
    returned (isTest exampleHost) (initial {[ "NODE_ENV" := "Development" ]}) = Ok t /\
    returned (isDevelopment exampleHost) (initial {[ "NODE_ENV" := "Development" ]})
    = Ok dv /\
    returned (isProduction exampleHost) (initial {[ "NODE_ENV" := "Development" ]})
    = Ok p /\
    returned (isLocal exampleHost) (initial {[ "NODE_ENV" := "Development" ]})
    = Ok (t || dv) /\
    t && dv = false /\ t && p = false /\ dv && p = false /\ (t || dv) && p = false.
Proof.
  assert (Hn : once_n (initial {[ "NODE_ENV" := "Development" ]}) <= 2) by (simpl; lia).
  split; [exact Hn|].
  exact (environment_predicates_exclusive exampleHost
           (initial {[ "NODE_ENV" := "Development" ]}) Hn).
Defined.

(** X16. [getLocale] takes the first of: the [DEFAULT_LOCALE] of the
    Store (also when it is the empty string), the OS locale, the OS
    locale found without spawning, the default given, ['sw']. With a
    default that is a string or left out the result is a string. *)
Theorem getLocale_precedence (H : Host) (st : State) (d : option string) :
  returned (getLocale H (optional d)) st =
  Ok (VStr
        (match Store H st !! "DEFAULT_LOCALE" with
         | Some v => v
         | None =>
             if nonEmpty (osLocale H true) then osLocale H true
             else if nonEmpty (osLocale H false) then osLocale H false
             else default "sw" d
         end)).
Proof.
  rewrite getLocale_returned, grab_direct by reflexivity.
  unfold or_else, nonEmpty. simpl truthy.
  destruct (Store H st !! "DEFAULT_LOCALE") as [v|]; [by rewrite gateString_VStr|].
  destruct (negb (Str.isEmpty (osLocale H true))); [by rewrite gateString_VStr|].
  destruct (negb (Str.isEmpty (osLocale H false))); [by rewrite gateString_VStr|].
  destruct d; simpl; by rewrite gateString_VStr.
Qed.

(** X17. An [API_VERSION] in the Store replaces the [version] option:
    the result of [apiVersion] does not depend on that option, and when
    the stored text coerces it is printed as the options ask. A stored
    empty string makes the call raise. *)
Theorem apiVersion_override (H : Host) (st : State) (s : string) :
  Store H st !! "API_VERSION" = Some s ->
  (forall optns w,
     returned (apiVersion H
       (mkOptions w (prefix optns) (opt_major optns) (opt_minor optns) (opt_patch optns))) st
     = returned (apiVersion H optns) st) /\
  (forall optns parsed, Semver.coerceString s = Some parsed ->
     returned (apiVersion H optns) st =
     Ok (formatVersion H (merge defaultOptions optns) parsed)) /\
  (s = "" -> forall optns,
     returned (apiVersion H optns) st =
     Throw (TypeError "Cannot read property 'major' of null")).
Proof.
  intros E.
  assert (Hc : forall w, coerce H (gateString H (grab H (Store H st) "API_VERSION" w))
                         = Semver.coerceString s).
  { intros w. rewrite (grab_present H _ _ _ s) by exact E. by rewrite gateString_VStr. }
  split; [|split].
  - intros optns w. rewrite !apiVersion_returned. cbv zeta. rewrite !Hc.
    destruct (Semver.coerceString s); reflexivity.
  - intros optns parsed Hp. rewrite apiVersion_returned. cbv zeta. by rewrite Hc, Hp.
  - intros -> optns. rewrite apiVersion_returned. cbv zeta. by rewrite Hc.
Qed.

(** X17 at the example host, with [API_VERSION=3.1.4] in the
    environment and ['2.3.4'] in the options. *)
Lemma apiVersion_override_witness :
  Store exampleHost (initial {[ "API_VERSION" := "3.1.4" ]}) !! "API_VERSION"
  = Some "3.1.4" /\
  returned (apiVersion exampleHost
    (mkOptions (VStr "2.3.4") VUndefined VUndefined (VBool true) VUndefined))
    (initial {[ "API_VERSION" := "3.1.4" ]}) = Ok "v3.1".
Proof.
  assert (E : Store exampleHost (initial {[ "API_VERSION" := "3.1.4" ]}) !! "API_VERSION"
              = Some "3.1.4") by (vm_compute; reflexivity).
  split; [exact E|].
  rewrite (proj1 (proj2 (apiVersion_override exampleHost _ "3.1.4" E))
             (mkOptions (VStr "2.3.4") VUndefined VUndefined (VBool true) VUndefined)
             (mkSemVer 3 1 4) eq_refl).
  reflexivity.
Defined.

(** X18. The [major] option is never read: whatever it is set to, and
    also when it is [false], [apiVersion] returns the same text, which
    always starts with the major component. *)
Theorem apiVersion_ignores_major (H : Host) (st : State) (optns : Options) (m : value) :
  returned (apiVersion H
    (mkOptions (version optns) (prefix optns) m (opt_minor optns) (opt_patch optns))) st
  = returned (apiVersion H optns) st.
Proof.
  rewrite !apiVersion_returned. cbv zeta.
  destruct optns as [v p mj mi pa]. simpl.
  destruct (coerce H _); reflexivity.
Qed.
